(** * 4BSC AI automation bot: the sequential multi-account engine of main.js

    A shallow embedding of [main.js] (retry primitive, authentication,
    daily-task workflow, per-account processing and the cycle loop) together
    with the properties stated about it.

    Conventions of the embedding.
    - JavaScript values that the code tests for truthiness or for
      [undefined] are [JsVal]s; fields the code only uses arithmetically
      (timestamps) are numbers holding integers.  Counters are JavaScript
      numbers holding small non-negative integers; they are modelled as [Z].
    - JavaScript numbers are doubles: the sum and the difference the code
      computes on a timestamp received from the platform are rounded to the
      nearest double ([to_double]), which is the exact result as long as it
      stays within [-2^53, 2^53].
    - What a collaborator or the runtime throws is an [Error] object, never
      [null] or [undefined], so reading [error.message] in a [catch] block
      does not throw.
    - [async]/[await] is sequential here (one logical thread), so an
      asynchronous function is a state transformer that may throw.
    - The remote collaborators (API, signer, chain client, AI generator,
      clock, timers) are a record of functions over an abstract world [W].
    - Every collaborator call, every [sleep] and every [logger.header] is
      recorded in a trace; the remaining logger calls only render text and
      are left out. *)

From Stdlib Require Import ZArith Lia Ascii.
From stdpp Require Import base option list strings gmap.

Local Open Scope Z_scope.

(** ** JavaScript values *)

#[local] Set Warnings "-register-all".

Inductive JsVal : Type :=
| JsUndefined
| JsNull
| JsBool (b : bool)
| JsNum (n : Z)
| JsStr (s : string)
| JsArr (items : list JsVal)
| JsObj (fields : list (string * JsVal)).

(** ToBoolean. *)
Definition truthy (v : JsVal) : bool :=
  match v with
  | JsUndefined | JsNull => false
  | JsBool b => b
  | JsNum n => negb (n =? 0)
  | JsStr s => negb (String.eqb s "")
  | JsArr _ | JsObj _ => true
  end.

(** [typeof v === 'undefined'] *)
Definition is_undefined (v : JsVal) : bool :=
  match v with JsUndefined => true | _ => false end.

Fixpoint assoc (k : string) (fields : list (string * JsVal)) : JsVal :=
  match fields with
  | [] => JsUndefined
  | (k', v) :: rest => if String.eqb k k' then v else assoc k rest
  end.

(** Property read [v.k] on a value that is neither [null] nor [undefined]:
    own properties of an object, [undefined] otherwise. *)
Definition get_prop (v : JsVal) (k : string) : JsVal :=
  match v with
  | JsObj fields => assoc k fields
  | _ => JsUndefined
  end.

(** [v ?? d] *)
Definition nullish_or (v d : JsVal) : JsVal :=
  match v with
  | JsUndefined | JsNull => d
  | _ => v
  end.

(** ** Numbers

    A JavaScript number is an IEEE 754 double.  Every integer of magnitude
    at most [2^53] is a double; a larger one lies between two doubles
    [q * 2^e] and [(q + 1) * 2^e] with [2^52 <= q < 2^53], and an arithmetic
    operation whose exact result it is returns the nearer of the two, the
    one with the even [q] on a tie.  (Magnitudes from [2^1024] on, which
    would give [Infinity], are out of reach of seconds since the epoch.) *)

Definition MAX_EXACT_INTEGER : Z := 2 ^ 53.


Definition to_double (z : Z) : Z :=
  let a := Z.abs z in
  if a <=? MAX_EXACT_INTEGER then z
  else
    let e := Z.log2 a - 52 in
    let q := a / 2 ^ e in
    let r := a mod 2 ^ e in
    let half := 2 ^ (e - 1) in
    let q' := if r <? half then q
              else if half <? r then q + 1
              else if Z.even q then q else q + 1 in
    Z.sgn z * (q' * 2 ^ e).

(** ** Outcomes of fallible operations *)

Inductive JsError : Type :=
| TypeError
| SyntaxError
| Rejected (message : string).

Inductive Outcome (E A : Type) : Type :=
| Return (a : A)
| Throw (error : E).
Arguments Return {E A} a.
Arguments Throw {E A} error.

(** ** retryWithBackoff (main.js, lines 42-60) *)

Definition MAX_RETRIES : nat := 3.
Definition RETRY_DELAY : Z := 5000.

Section Retry.
Context {St E A : Type}.
(** [sleep ms]: the state once the timer has fired. *)
Variable sleep : Z -> St -> St.
(** What a JavaScript function returns when it falls off its end. *)
Variable undefined : A.
Variable fn : St -> Outcome E A * St.

(** The [for (let i = 0; i < retries; i++)] loop, entered at index [i]
    with [remaining = retries - i] iterations left. *)
Fixpoint retry_loop (retries : nat) (delay : Z) (remaining i : nat) (s : St)
  : Outcome E A * St :=
  match remaining with
  | O => (Return undefined, s)
  | S remaining' =>
      match fn s with
      | (Return a, s') => (Return a, s')
      | (Throw error, s') =>
          if Nat.eqb i (retries - 1) then (Throw error, s')
          else
            let waitTime := delay * 2 ^ Z.of_nat i in
            retry_loop retries delay remaining' (S i) (sleep waitTime s')
      end
  end.

Definition retryWithBackoff (retries : nat) (delay : Z) (s : St) : Outcome E A * St :=
  retry_loop retries delay retries 0%nat s.
End Retry.

(** Instrumentation used to count attempts and record waits: the state is
    paired with the number of runs of the operation and the list of waits. *)
Record Probe (St : Type) : Type := mkProbe {
  probed : St;
  runs : nat;
  waits : list Z
}.
Arguments mkProbe {St} probed runs waits.
Arguments probed {St} p.
Arguments runs {St} p.
Arguments waits {St} p.

Definition probe_sleep {St} (sleep : Z -> St -> St) (ms : Z) (p : Probe St) : Probe St :=
  mkProbe (sleep ms (probed p)) (runs p) (waits p ++ [ms]).

Definition probe_fn {St E A} (fn : St -> Outcome E A * St) (p : Probe St)
  : Outcome E A * Probe St :=
  let '(r, s') := fn (probed p) in (r, mkProbe s' (S (runs p)) (waits p)).

(** ** Data exchanged with the collaborators

    A response is [null]/[undefined] ([None]) or an object whose [data]
    field is falsy or absent ([None]) or holds the payload.  A payload that
    lacks a field has [JsUndefined] there.  The timestamps
    ([token_expire_time], [finish_time]) are numbers holding integers, in
    seconds. *)

Record Response (D : Type) : Type := mkResponse { data : option D }.
Arguments mkResponse {D} data.
Arguments data {D} r.

Record NonceData : Type := mkNonceData { nonce : JsVal }.

Module LoginData.
Record t : Type := mk { token : JsVal; token_expire_time : Z }.
End LoginData.

(** [{ ...loginResponse.data, address }] *)
Record TokenData : Type := mkTokenData {
  token : JsVal;
  token_expire_time : Z;
  address : string
}.

Record DailyTaskData : Type := mkDailyTaskData {
  is_create_agent : JsVal;
  is_create_request : JsVal;
  finish_time : Z
}.

Record Created : Type := mkCreated { id : JsVal }.

Record TxResult : Type := mkTxResult { hash : JsVal }.

Module UserData.
Record t : Type := mk { uid : JsVal; total_point : JsVal; days : JsVal }.
End UserData.

(** ** AccountStats (main.js, lines 444-455) *)

Record AccountStats : Type := mkStats {
  uid : JsVal;
  totalPoint : JsVal;
  days : JsVal;
  agents : Z;
  requests : Z;
  txs : Z;
  errors : Z;
  lastRun : option Z;      (* [null], or the instant rendered by toLocaleString *)
  startTime : Z;
  cooldownSeconds : Z
}.

Definition incr_agents (s : AccountStats) : AccountStats :=
  mkStats (uid s) (totalPoint s) (days s) (agents s + 1) (requests s) (txs s)
          (errors s) (lastRun s) (startTime s) (cooldownSeconds s).
Definition incr_requests (s : AccountStats) : AccountStats :=
  mkStats (uid s) (totalPoint s) (days s) (agents s) (requests s + 1) (txs s)
          (errors s) (lastRun s) (startTime s) (cooldownSeconds s).
Definition incr_txs (s : AccountStats) : AccountStats :=
  mkStats (uid s) (totalPoint s) (days s) (agents s) (requests s) (txs s + 1)
          (errors s) (lastRun s) (startTime s) (cooldownSeconds s).
Definition incr_errors (s : AccountStats) : AccountStats :=
  mkStats (uid s) (totalPoint s) (days s) (agents s) (requests s) (txs s)
          (errors s + 1) (lastRun s) (startTime s) (cooldownSeconds s).
Definition set_lastRun (t : Z) (s : AccountStats) : AccountStats :=
  mkStats (uid s) (totalPoint s) (days s) (agents s) (requests s) (txs s)
          (errors s) (Some t) (startTime s) (cooldownSeconds s).
Definition set_cooldownSeconds (c : Z) (s : AccountStats) : AccountStats :=
  mkStats (uid s) (totalPoint s) (days s) (agents s) (requests s) (txs s)
          (errors s) (lastRun s) (startTime s) c.
Definition set_uid (v : JsVal) (s : AccountStats) : AccountStats :=
  mkStats v (totalPoint s) (days s) (agents s) (requests s) (txs s)
          (errors s) (lastRun s) (startTime s) (cooldownSeconds s).
Definition set_totalPoint (v : JsVal) (s : AccountStats) : AccountStats :=
  mkStats (uid s) v (days s) (agents s) (requests s) (txs s)
          (errors s) (lastRun s) (startTime s) (cooldownSeconds s).
Definition set_days (v : JsVal) (s : AccountStats) : AccountStats :=
  mkStats (uid s) (totalPoint s) v (agents s) (requests s) (txs s)
          (errors s) (lastRun s) (startTime s) (cooldownSeconds s).

(** The record main() stores for every key. *)
Definition initial_stats (now : Z) : AccountStats :=
  mkStats JsNull (JsNum 0) (JsNum 0) 0 0 0 0 None now 0.

(** ** Observable events *)

Inductive Stage : Type := Authentication | CreatingAgent | CreatingRequest.

Inductive Event : Type :=
| EvSleep (ms : Z)
| EvHeader (stage : Stage) (accountIndex : nat)
| EvGetNonce
| EvSign
| EvLogin
| EvSetInviter
| EvVerifyDailyTask
| EvGenerateAI (task : string)
| EvCreateNewAgent
| EvCreateNewRequest
| EvContractCall (method : string)
| EvGetUserData.

(** ** The collaborators of main.js

    Each call takes the world to an outcome and a new world. *)

Record Collab (W : Type) : Type := mkCollab {
  Date_now : W -> Z;                              (* milliseconds *)
  timer : Z -> W -> W;                            (* setTimeout firing after ms *)
  JSON_parse : string -> option JsVal;            (* None: SyntaxError *)
  wallet_address : string -> Outcome JsError string;
  getNonce : string -> W -> Outcome JsError (option (Response NonceData)) * W;
  sign_with_private_key : string -> JsVal -> W -> Outcome JsError JsVal * W;
  login : string -> JsVal -> JsVal -> W
          -> Outcome JsError (option (Response LoginData.t)) * W;
  setInviter : JsVal -> W -> Outcome JsError unit * W;
  verifyDailyTask : JsVal -> string -> W
                    -> Outcome JsError (option (Response DailyTaskData)) * W;
  generateAIResponse : string -> string -> W -> Outcome JsError string * W;
  createNewAgent : JsVal -> JsVal -> JsVal -> W
                   -> Outcome JsError (option (Response Created)) * W;
  createNewRequest : JsVal -> JsVal -> JsVal -> W
                     -> Outcome JsError (option (Response Created)) * W;
  contractCall : string -> list JsVal -> W -> Outcome JsError (option TxResult) * W;
  getUserData : JsVal -> W -> Outcome JsError (option (Response UserData.t)) * W
}.
Arguments Date_now {W} c.
Arguments timer {W} c.
Arguments JSON_parse {W} c.
Arguments wallet_address {W} c.
Arguments getNonce {W} c.
Arguments sign_with_private_key {W} c.
Arguments login {W} c.
Arguments setInviter {W} c.
Arguments verifyDailyTask {W} c.
Arguments generateAIResponse {W} c.
Arguments createNewAgent {W} c.
Arguments createNewRequest {W} c.
Arguments contractCall {W} c.
Arguments getUserData {W} c.

(** ** Program state and the monad of main.js *)

Record State (W : Type) : Type := mkState {
  world : W;
  trace : list Event;
  accountsStats : gmap nat AccountStats
}.
Arguments mkState {W} world trace accountsStats.
Arguments world {W} s.
Arguments trace {W} s.
Arguments accountsStats {W} s.

Definition M (W A : Type) : Type := State W -> Outcome JsError A * State W.

Definition ret {W A} (a : A) : M W A := fun st => (Return a, st).
Definition throw {W A} (e : JsError) : M W A := fun st => (Throw e, st).
Definition bind {W A B} (m : M W A) (k : A -> M W B) : M W B :=
  fun st =>
    match m st with
    | (Return a, st') => k a st'
    | (Throw e, st') => (Throw e, st')
    end.
(** [try { m } catch (error) { handler error }] *)
Definition try_catch {W A} (m : M W A) (handler : JsError -> M W A) : M W A :=
  fun st =>
    match m st with
    | (Return a, st') => (Return a, st')
    | (Throw e, st') => handler e st'
    end.

Declare Scope js_scope.
Delimit Scope js_scope with js.
Notation "x <- m ;; k" := (bind m (fun x => k))
  (at level 100, m at next level, right associativity) : js_scope.
Notation "m ;; k" := (bind m (fun _ => k))
  (at level 100, right associativity) : js_scope.

(** ** The program *)

(** How the first part of processAccount's [try] block ends: with a
    [return] of the function, or with the session to run the tasks with. *)
Inductive Flow : Type :=
| Returned (result : option TokenData)
| Proceed (tokenData : TokenData).

Section Program.
Context {W : Type}.
Variable C : Collab W.

Local Open Scope js_scope.

(** A collaborator call: the event is recorded, the world advances. *)
Definition call {A} (ev : Event) (f : W -> Outcome JsError A * W) : M W A :=
  fun st =>
    let '(r, w') := f (world st) in
    (r, mkState w' (trace st ++ [ev]) (accountsStats st)).

(** [await sleep(ms)] (lines 62-64) as a state change. *)
Definition sleep (ms : Z) (st : State W) : State W :=
  mkState (timer C ms (world st)) (trace st ++ [EvSleep ms]) (accountsStats st).

Definition do_sleep (ms : Z) : M W unit := fun st => (Return tt, sleep ms st).

(** [logger.header(...)] *)
Definition header (stage : Stage) (accountIndex : nat) : M W unit :=
  fun st =>
    (Return tt, mkState (world st) (trace st ++ [EvHeader stage accountIndex])
                        (accountsStats st)).

(** [Date.now()] *)
Definition date_now : M W Z := fun st => (Return (Date_now C (world st)), st).

(** [Math.floor(Date.now() / 1000)] *)
Definition now_seconds : M W Z := fun st => (Return (Date_now C (world st) / 1000), st).

(** [accountsStats[accountIndex].field = ...] and [field++]: reading a
    property of [undefined] throws a TypeError. *)
Definition update_stats (accountIndex : nat) (f : AccountStats -> AccountStats)
  : M W unit :=
  fun st =>
    match accountsStats st !! accountIndex with
    | Some s =>
        (Return tt,
         mkState (world st) (trace st) (<[accountIndex := f s]> (accountsStats st)))
    | None => (Throw TypeError, st)
    end.

(** [retryWithBackoff(fn)] with the default arguments. *)
Definition retry {A} (fn : M W (option A)) : M W (option A) :=
  retryWithBackoff sleep None fn MAX_RETRIES RETRY_DELAY.

(** *** checkTokenValid (lines 94-104) *)
Definition checkTokenValid (token_expire_time : Z) : M W bool :=
  now <- now_seconds ;;
  if token_expire_time <=? now then ret false else ret true.

(** *** getToken (lines 107-159) *)
Definition getToken (private_key : string) (accountIndex : nat)
  : M W (option TokenData) :=
  header Authentication accountIndex ;;
  try_catch
    (if String.eqb private_key "" then ret None
     else
       match wallet_address C private_key with
       | Throw e => throw e
       | Return address =>
           message <- call EvGetNonce (getNonce C address) ;;
           match message with
           | None => ret None
           | Some message =>
               match data message with
               | None => ret None
               | Some message_data =>
                   let nonce := nonce message_data in
                   signature <- call EvSign (sign_with_private_key C private_key nonce) ;;
                   loginResponse <- call EvLogin (login C address signature nonce) ;;
                   match loginResponse with
                   | None => ret None
                   | Some loginResponse =>
                       match data loginResponse with
                       | None => ret None
                       | Some login_data =>
                           if truthy (LoginData.token login_data) then
                             call EvSetInviter (setInviter C (LoginData.token login_data)) ;;
                             ret (Some (mkTokenData
                                          (LoginData.token login_data)
                                          (LoginData.token_expire_time login_data)
                                          address))
                           else ret None
                       end
                   end
               end
           end
       end)
    (fun error => ret None).

(** *** createAgent (lines 162-217) *)
Definition createAgent (session_token : JsVal) (accountIndex : nat) : M W bool :=
  header CreatingAgent accountIndex ;;
  try_catch
    (agentData <- call (EvGenerateAI "createAgent")
                       (generateAIResponse C "create agent" "createAgent") ;;
     match JSON_parse C agentData with
     | None => throw SyntaxError
     | Some agent =>
         let fields :=
           nullish_or agent (JsObj [("name_agent", JsStr ""); ("description", JsStr "")]) in
         let name_agent := get_prop fields "name_agent" in
         let description := get_prop fields "description" in
         if negb (truthy name_agent) || negb (truthy description) then ret false
         else
           agentResponse <- retry (call EvCreateNewAgent
                              (createNewAgent C session_token name_agent description)) ;;
           match agentResponse with
           | None => ret false
           | Some agentResponse =>
               match data agentResponse with
               | None => ret false
               | Some agent_data =>
                   let agentID := id agent_data in
                   if truthy agentID then
                     txResult <- retry (call (EvContractCall "addNewAgent")
                                   (contractCall C "addNewAgent"
                                      [agentID; name_agent; description])) ;;
                     match txResult with
                     | None => ret false
                     | Some txResult =>
                         if truthy (hash txResult) then
                           update_stats accountIndex incr_agents ;;
                           update_stats accountIndex incr_txs ;;
                           ret true
                         else ret false
                     end
                   else ret false
               end
           end
     end)
    (fun error =>
       update_stats accountIndex incr_errors ;;
       ret false).

(** *** createRequest (lines 220-275) *)
Definition createRequest (session_token : JsVal) (accountIndex : nat) : M W bool :=
  header CreatingRequest accountIndex ;;
  try_catch
    (requestData <- call (EvGenerateAI "createRequest")
                         (generateAIResponse C "create request" "createRequest") ;;
     match JSON_parse C requestData with
     | None => throw SyntaxError
     | Some request =>
         let fields :=
           nullish_or request (JsObj [("title", JsStr ""); ("description", JsStr "")]) in
         let title := get_prop fields "title" in
         let description := get_prop fields "description" in
         if negb (truthy title) || negb (truthy description) then ret false
         else
           requestResponse <- retry (call EvCreateNewRequest
                                (createNewRequest C session_token title description)) ;;
           match requestResponse with
           | None => ret false
           | Some requestResponse =>
               match data requestResponse with
               | None => ret false
               | Some request_data =>
                   let requestID := id request_data in
                   if truthy requestID then
                     txResult <- retry (call (EvContractCall "addNewRequest")
                                   (contractCall C "addNewRequest" [requestID; title])) ;;
                     match txResult with
                     | None => ret false
                     | Some txResult =>
                         if truthy (hash txResult) then
                           update_stats accountIndex incr_requests ;;
                           update_stats accountIndex incr_txs ;;
                           ret true
                         else ret false
                     end
                   else ret false
               end
           end
     end)
    (fun error =>
       update_stats accountIndex incr_errors ;;
       ret false).

(** *** executeDailyTasks (lines 278-349) *)

(** Lines 304-341: the part of the [try] block that runs once the status
    response has passed both validations. *)
Definition perform_tasks (session_token : JsVal) (accountIndex : nat)
           (status : DailyTaskData) : M W bool :=
  now <- now_seconds ;;
  let cooldownEndTime := to_double (finish_time status + 24 * 60 * 60) in
  let secondsUntilNextTask := to_double (cooldownEndTime - now) in
  agentResult <- (if negb (truthy (is_create_agent status))
                  then createAgent session_token accountIndex
                  else ret false) ;;
  requestResult <- (if negb (truthy (is_create_request status))
                    then createRequest session_token accountIndex
                    else ret false) ;;
  let taskCompleted := agentResult || requestResult in
  stamp <- date_now ;;
  update_stats accountIndex (set_lastRun stamp) ;;
  update_stats accountIndex (set_cooldownSeconds secondsUntilNextTask) ;;
  ret true.

(** Lines 285-286: the status query, wrapped by the retry policy. *)
Definition fetch_status (tokenData : TokenData)
  : M W (option (Response DailyTaskData)) :=
  retry (call EvVerifyDailyTask
              (verifyDailyTask C (token tokenData) (address tokenData))).

Definition executeDailyTasks (tokenData : TokenData) (accountIndex : nat) : M W bool :=
  try_catch
    (let session_token := token tokenData in
     dailyTaskResponse <- fetch_status tokenData ;;
     match dailyTaskResponse with
     | None => ret false
     | Some dailyTaskResponse =>
         match data dailyTaskResponse with
         | None => ret false
         | Some status =>
             if is_undefined (is_create_agent status)
                || is_undefined (is_create_request status)
             then ret false
             else perform_tasks session_token accountIndex status
         end
     end)
    (fun error =>
       update_stats accountIndex incr_errors ;;
       ret false).

(** *** processAccount (lines 352-421)

    The variable [tokenData] is reassigned inside the [try] block and the
    handler returns its current value, so the block is written as two
    guarded parts, split at the reassignment: the first part either returns
    from the function or hands the session over to the second. *)

Definition on_critical_error (accountIndex : nat) (tokenData : option TokenData)
  : JsError -> M W (option TokenData) :=
  fun error =>
    update_stats accountIndex incr_errors ;;
    ret tokenData.

(** Lines 362-367 and 373-378: [getToken], then [return null] without a
    token. *)
Definition authenticate (private_key : string) (accountIndex : nat) : M W Flow :=
  tokenData <- getToken private_key accountIndex ;;
  match tokenData with
  | None => ret (Returned None)
  | Some tokenData => ret (Proceed tokenData)
  end.

(** Lines 361-380. *)
Definition acquire_session (private_key : string) (accountIndex : nat)
           (tokenData : option TokenData) : M W Flow :=
  match tokenData with
  | None => authenticate private_key accountIndex
  | Some current =>
      isValid <- checkTokenValid (token_expire_time current) ;;
      if isValid then ret (Proceed current)
      else authenticate private_key accountIndex
  end.

(** Lines 392-407: best-effort profile refresh with its own handler. *)
Definition refresh_user_data (tokenData : TokenData) (accountIndex : nat) : M W unit :=
  try_catch
    (userData <- call EvGetUserData (getUserData C (token tokenData)) ;;
     match userData with
     | None => ret tt
     | Some userData =>
         match data userData with
         | None => ret tt
         | Some user =>
             update_stats accountIndex (set_uid (UserData.uid user)) ;;
             update_stats accountIndex (set_totalPoint (UserData.total_point user)) ;;
             update_stats accountIndex (set_days (UserData.days user))
         end
     end)
    (fun error => ret tt).

(** Lines 383-412. *)
Definition run_account_tasks (tokenData : TokenData) (accountIndex : nat)
  : M W (option TokenData) :=
  taskResult <- executeDailyTasks tokenData accountIndex ;;
  if negb taskResult then ret (Some tokenData)
  else
    refresh_user_data tokenData accountIndex ;;
    ret (Some tokenData).

Definition processAccount (private_key : string) (accountIndex : nat)
           (tokenData : option TokenData) : M W (option TokenData) :=
  flow <- try_catch (acquire_session private_key accountIndex tokenData)
                    (fun error =>
                       result <- on_critical_error accountIndex tokenData error ;;
                       ret (Returned result)) ;;
  match flow with
  | Returned result => ret result
  | Proceed tokenData' =>
      try_catch (run_account_tasks tokenData' accountIndex)
                (on_critical_error accountIndex (Some tokenData'))
  end.

(** *** main (lines 424-533) *)

Record MainState : Type := mkMain {
  prog : State W;
  tokenDataArray : list (option TokenData);
  cycleCount : nat
}.

(** Lines 443-459: one stats record per key, no session yet. *)
Definition init_stats (n : nat) (now : Z) : gmap nat AccountStats :=
  foldl (fun stats index => <[index := initial_stats now]> stats) ∅ (seq 0 n).

Definition main_init (PRIVATE_KEYS : list string) (w : W) : MainState :=
  mkMain (mkState w [] (init_stats (length PRIVATE_KEYS) (Date_now C w)))
         (replicate (length PRIVATE_KEYS) None)
         0.

(** Lines 469-479: the loop over the keys from index [i] on; [keys] is the
    part of PRIVATE_KEYS not yet processed and [n] its full length.  The
    array slot [i] exists, so the assignment is an in-place update. *)
Fixpoint accounts_loop (n : nat) (keys : list string) (i : nat) (ms : MainState)
  : Outcome JsError unit * MainState :=
  match keys with
  | [] => (Return tt, ms)
  | private_key :: rest =>
      let tokenData := default None (tokenDataArray ms !! i) in
      match processAccount private_key i tokenData (prog ms) with
      | (Throw e, st') => (Throw e, mkMain st' (tokenDataArray ms) (cycleCount ms))
      | (Return tokenData', st') =>
          let st'' := if Nat.ltb i (n - 1) then sleep 3000 st' else st' in
          accounts_loop n rest (S i)
            (mkMain st'' (<[i := tokenData']> (tokenDataArray ms)) (cycleCount ms))
      end
  end.

(** Lines 481-522: the summary only reads the statistics; the runtime line
    reads [accountsStats[0].startTime]. *)
Definition summary : M W unit :=
  fun st =>
    match accountsStats st !! 0%nat with
    | Some _ => (Return tt, st)
    | None => (Throw TypeError, st)
    end.

(** Lines 66-91: the ticker only prints; the wait is one sleep. *)
Definition countdownTimer (hours : Z) : M W unit :=
  let totalSeconds := hours * 60 * 60 in
  do_sleep (totalSeconds * 1000).

(** One iteration of [while (true)] (lines 463-532). *)
Definition cycle (PRIVATE_KEYS : list string) (WAIT_HOURS : Z) (ms : MainState)
  : MainState :=
  let ms1 := mkMain (prog ms) (tokenDataArray ms) (S (cycleCount ms)) in
  match accounts_loop (length PRIVATE_KEYS) PRIVATE_KEYS 0 ms1 with
  | (Return _, ms2) =>
      match (summary ;; countdownTimer WAIT_HOURS) (prog ms2) with
      | (Return _, st3) => mkMain st3 (tokenDataArray ms2) (cycleCount ms2)
      | (Throw _, st3) =>
          mkMain (sleep 300000 st3) (tokenDataArray ms2) (cycleCount ms2)
      end
  | (Throw _, ms2) =>
      mkMain (sleep 300000 (prog ms2)) (tokenDataArray ms2) (cycleCount ms2)
  end.

Fixpoint cycles (PRIVATE_KEYS : list string) (WAIT_HOURS : Z) (n : nat)
         (ms : MainState) : MainState :=
  match n with
  | O => ms
  | S n' => cycles PRIVATE_KEYS WAIT_HOURS n' (cycle PRIVATE_KEYS WAIT_HOURS ms)
  end.

(** main() observed after [n] iterations of its endless loop; with no key
    it returns before anything is initialised. *)
Definition main (PRIVATE_KEYS : list string) (WAIT_HOURS : Z) (n : nat) (w : W)
  : MainState :=
  match PRIVATE_KEYS with
  | [] => mkMain (mkState w [] ∅) [] 0
  | _ => cycles PRIVATE_KEYS WAIT_HOURS n (main_init PRIVATE_KEYS w)
  end.

End Program.

(** ** A scripted world for concrete runs

    The world is the clock in milliseconds; timers advance it.  The
    collaborators answer every call the same way: the status query with
    [status], the login with [loginResponse]; the AI generator produces
    texts that parse to [agent] and to a well-formed request. *)

Definition some_data {D} (d : D) : option (Response D) := Some (mkResponse (Some d)).

Definition scripted (status : option (Response DailyTaskData)) (agent : JsVal)
           (loginResponse : option (Response LoginData.t)) : Collab Z :=
  mkCollab Z
    (fun w => w)
    (fun ms w => w + ms)
    (fun text =>
       if String.eqb text "agent" then Some agent
       else if String.eqb text "request"
            then Some (JsObj [("title", JsStr "t"); ("description", JsStr "d")])
            else None)
    (fun private_key => Return "0xA"%string)
    (fun address w => (Return (some_data (mkNonceData (JsStr "n"))), w))
    (fun private_key nonce w => (Return (JsStr "sig"), w))
    (fun address signature nonce w => (Return loginResponse, w))
    (fun token w => (Return tt, w))
    (fun token address w => (Return status, w))
    (fun task kind w =>
       (Return (if String.eqb kind "createAgent" then "agent" else "request")%string, w))
    (fun token name description w => (Return (some_data (mkCreated (JsNum 7))), w))
    (fun token title description w => (Return (some_data (mkCreated (JsNum 8))), w))
    (fun method args w => (Return (Some (mkTxResult (JsStr "0xh"))), w))
    (fun token w =>
       (Return (some_data (UserData.mk (JsStr "u") (JsNum 10) (JsNum 1))), w)).

Definition good_agent : JsVal :=
  JsObj [("name_agent", JsStr "a"); ("description", JsStr "d")].
Definition nameless_agent : JsVal :=
  JsObj [("name_agent", JsStr ""); ("description", JsStr "d")].
Definition good_login : option (Response LoginData.t) :=
  some_data (LoginData.mk (JsStr "tok") 2000).
Definition failed_login : option (Response LoginData.t) :=
  Some (mkResponse None).

Definition status_of (agentDone requestDone : JsVal) (finish : Z)
  : option (Response DailyTaskData) :=
  some_data (mkDailyTaskData agentDone requestDone finish).

(** One configured account, clock at [w] milliseconds. *)
Definition one_account (w : Z) : State Z :=
  mkState w [] {[ 0%nat := initial_stats 0 ]}.

Definition demo_token : TokenData := mkTokenData (JsStr "tok") 2000 "0xA".

(** An operation that fails [k] times and then succeeds; the state counts
    the calls made so far. *)
Definition flaky (k : nat) (n : nat) : Outcome nat bool * nat :=
  if Nat.ltb n k then (Throw n, S n) else (Return true, S n).

(** ** Properties of counters *)

Definition counters_ok (s : AccountStats) : Prop :=
  0 <= errors s ∧ txs s <= agents s + requests s.

Definition counters_exact (s : AccountStats) : Prop :=
  txs s = agents s + requests s.

(** How one account's counters may move: none decreases, and [txs] moves by
    what [agents] and [requests] move together. *)
Definition grows (s s' : AccountStats) : Prop :=
  errors s <= errors s' ∧ agents s <= agents s' ∧ requests s <= requests s'
  ∧ txs s' - txs s = (agents s' - agents s) + (requests s' - requests s).

Definition stats_grow (m m' : gmap nat AccountStats) : Prop :=
  ∀ i, match m !! i, m' !! i with
       | Some s, Some s' => grows s s'
       | None, None => True
       | _, _ => False
       end.

(** The events a state gained, when they all satisfy [P]. *)
Definition emits {W} (P : Event -> Prop) (st st' : State W) : Prop :=
  ∃ evs, trace st' = trace st ++ evs ∧ Forall P evs.

Definition is_sleep (e : Event) : Prop := ∃ ms, e = EvSleep ms.

(** Events of the authentication handshake after its header. *)
Definition auth_call (e : Event) : Prop :=
  match e with
  | EvGetNonce | EvSign | EvLogin | EvSetInviter => True
  | _ => False
  end.

(** Events of agent or request creation: generation, submission, chain. *)
Definition creation_event (e : Event) : Prop :=
  match e with
  | EvGenerateAI _ | EvCreateNewAgent | EvCreateNewRequest | EvContractCall _
  | EvHeader CreatingAgent _ | EvHeader CreatingRequest _ => True
  | _ => False
  end.

(** Events of the handshake, header included. *)
Definition auth_event (e : Event) : Prop :=
  match e with
  | EvHeader Authentication _ | EvGetNonce | EvSign | EvLogin | EvSetInviter => True
  | _ => False
  end.

(** Events of the task workflow: anything but the handshake. *)
Definition task_event (e : Event) : Prop := ¬ auth_event e.

(** A step that leaves the statistics alone and emits events in [P]. *)
Definition quiet {W} (P : Event → Prop) (st st' : State W) : Prop :=
  accountsStats st' = accountsStats st ∧ emits P st st'.

(** What the agent flow and the request flow may emit after their header. *)
Definition agent_flow_event (e : Event) : Prop :=
  e = EvGenerateAI "createAgent" ∨ e = EvCreateNewAgent
  ∨ e = EvContractCall "addNewAgent" ∨ is_sleep e.

Definition request_flow_event (e : Event) : Prop :=
  e = EvGenerateAI "createRequest" ∨ e = EvCreateNewRequest
  ∨ e = EvContractCall "addNewRequest" ∨ is_sleep e.

(** The four ways createAgent and createRequest can end for account [i],
    after the header of their [stage] and events of their [flow]: nothing
    counted; an error counted; the creation counted together with its
    transaction, after the platform call [submit] and the chain call
    [chain]; or no statistics record to count in. *)
Definition create_outcome {W} (i : nat) (stage : Stage) (flow : Event → Prop)
           (bump : AccountStats → AccountStats) (submit chain : Event)
           (st : State W) (r : Outcome JsError bool) (st' : State W) : Prop :=
  ∃ evs, trace st' = trace st ++ EvHeader stage i :: evs ∧ Forall flow evs
    ∧ ( (r = Return false ∧ accountsStats st' = accountsStats st)
      ∨ (∃ s, accountsStats st !! i = Some s ∧ r = Return false
              ∧ accountsStats st' = <[i := incr_errors s]> (accountsStats st))
      ∨ (∃ s, accountsStats st !! i = Some s ∧ r = Return true
              ∧ accountsStats st' = <[i := incr_txs (bump s)]> (accountsStats st)
              ∧ submit ∈ evs ∧ chain ∈ evs)
      ∨ (accountsStats st !! i = None ∧ r = Throw TypeError
         ∧ accountsStats st' = accountsStats st) ).

(** A step along which every account's counters grow and the new events
    are in [P]. *)
Definition advance {W} (P : Event → Prop) (st st' : State W) : Prop :=
  stats_grow (accountsStats st) (accountsStats st') ∧ emits P st st'.

(** Every run of [m] is an [advance] step. *)
Definition preserves {W A} (P : Event → Prop) (m : M W A) : Prop :=
  ∀ st r st', m st = (r, st') → advance P st st'.

(** Moreover [m] does not throw when account [i] has its statistics. *)
Definition safe {W A} (i : nat) (P : Event → Prop) (m : M W A) : Prop :=
  ∀ st r st', m st = (r, st') →
    advance P st st' ∧ (is_Some (accountsStats st !! i) → ∃ a, r = Return a).

Definition any_event (e : Event) : Prop := True.

(** A property of every statistics record of the registry. *)
Definition stats_inv (P : AccountStats → Prop) (m : gmap nat AccountStats) : Prop :=
  ∀ i s, m !! i = Some s → P s.

(** [m] keeps the property, whatever its outcome. *)
Definition keeps {W A} (P : AccountStats → Prop) (m : M W A) : Prop :=
  ∀ st r st', m st = (r, st') →
    stats_inv P (accountsStats st) → stats_inv P (accountsStats st').

(** The status response fails one of the two validations of
    executeDailyTasks (lines 289 and 298). *)
Definition lacks_flags (response : option (Response DailyTaskData)) : bool :=
  match response with
  | None => true
  | Some response =>
      match data response with
      | None => true
      | Some status =>
          is_undefined (is_create_agent status)
          || is_undefined (is_create_request status)
      end
  end.

(** The generated agent fails the validation of createAgent (line 173). *)
Definition invalid_agent (agent : JsVal) : bool :=
  let fields :=
    nullish_or agent (JsObj [("name_agent", JsStr ""); ("description", JsStr "")]) in
  negb (truthy (get_prop fields "name_agent"))
  || negb (truthy (get_prop fields "description")).

(** Events of the status query under the retry policy. *)
Definition status_query_event (e : Event) : Prop :=
  e = EvVerifyDailyTask ∨ is_sleep e.

(** processAccount has to authenticate: no session is carried, or the
    carried one has expired at [now] (seconds). *)
Definition needs_auth (tokenData : option TokenData) (now : Z) : bool :=
  match tokenData with
  | None => true
  | Some current => token_expire_time current <=? now
  end.

(** ** parsePrivateKeys (main.js, lines 22-38)

    The text of the [.env] file is the argument.  A string is its sequence
    of UTF-16 code units; the embedding covers code units below 256, one
    [ascii] each.  Of the code units [String.prototype.trim] strips, those
    in this range are TAB, LF, VT, FF, CR, SPACE and NBSP. *)

Definition is_white_space (c : ascii) : bool :=
  let n := nat_of_ascii c in
  (Nat.leb 9 n && Nat.leb n 13) || Nat.eqb n 32 || Nat.eqb n 160.

Fixpoint trim_start (s : list ascii) : list ascii :=
  match s with
  | [] => []
  | c :: rest => if is_white_space c then trim_start rest else s
  end.

Definition trim_end (s : list ascii) : list ascii := rev (trim_start (rev s)).

(** [s.trim()] *)
Definition trim (s : list ascii) : list ascii := trim_end (trim_start s).

(** [s.startsWith(searchString)] *)
Fixpoint startsWith (s searchString : list ascii) : bool :=
  match searchString, s with
  | [], _ => true
  | _ :: _, [] => false
  | p :: ps, c :: cs => if Ascii.eqb c p then startsWith cs ps else false
  end.

(** [s.replace(pattern, '')] with a string pattern: the first occurrence
    of [pattern] is removed. *)
Fixpoint replace_first (s pattern : list ascii) : list ascii :=
  match s with
  | [] => []
  | c :: rest =>
      if startsWith s pattern then drop (length pattern) s
      else c :: replace_first rest pattern
  end.

Definition LF : ascii := "010"%char.

(** [s.split('\n')] *)
Fixpoint split_lines (s : list ascii) : list (list ascii) :=
  match s with
  | [] => [[]]
  | c :: rest =>
      if Ascii.eqb c LF then [] :: split_lines rest
      else match split_lines rest with
           | line :: lines => (c :: line) :: lines
           | [] => [[c]]
           end
  end.

Definition PRIVATE_KEY_prefix : list ascii := String.list_ascii_of_string "PRIVATE_KEY=".
Definition hex_prefix : list ascii := String.list_ascii_of_string "0x".

(** The body of the [for] loop (lines 28-34): the key a line contributes. *)
Definition key_of_line (line : list ascii) : option (list ascii) :=
  let trimmed := trim line in
  if startsWith trimmed PRIVATE_KEY_prefix then
    let key := trim (replace_first trimmed PRIVATE_KEY_prefix) in
    if negb (Nat.eqb (length key) 0) && startsWith key hex_prefix
       && Nat.ltb 10 (length key)
    then Some key
    else None
  else None.

Definition parse_keys (envContent : list ascii) : list (list ascii) :=
  omap key_of_line (split_lines envContent).

Definition parsePrivateKeys (envContent : string) : list string :=
  String.string_of_list_ascii <$> parse_keys (String.list_ascii_of_string envContent).

(** The documented layout of the file: one [PRIVATE_KEY=] line per key. *)
Definition env_line (key : list ascii) : list ascii := PRIVATE_KEY_prefix ++ key ++ [LF].

Definition env_of_keys (keys : list (list ascii)) : list ascii :=
  concat (env_line <$> keys).

(** A key the parser returns unchanged: it starts with [0x], is longer than
    10, has no white space at either end and no line feed inside. *)
Definition well_formed_key (key : list ascii) : Prop :=
  startsWith key hex_prefix = true
  ∧ (10 < length key)%nat
  ∧ trim key = key
  ∧ LF ∉ key.

(** ** The waits of the retry policy *)

Definition backoff_schedule (delay : Z) (k : nat) : list Z :=
  (λ i, delay * 2 ^ Z.of_nat i) <$> seq 0 k.

(** ** The summary of main (lines 485-508)

    The four counter totals; [totalPoints] adds profile values as they came
    from the API and is left out. *)

Record Totals : Type := mkTotals {
  totalAgents : Z;
  totalRequests : Z;
  totalTxs : Z;
  totalErrors : Z
}.

Definition add_account (stats : gmap nat AccountStats) (totals : Totals) (i : nat)
  : Totals :=
  match stats !! i with
  | Some s =>
      mkTotals (totalAgents totals + agents s) (totalRequests totals + requests s)
               (totalTxs totals + txs s) (totalErrors totals + errors s)
  | None => totals
  end.

Definition summary_totals (n : nat) (stats : gmap nat AccountStats) : Totals :=
  foldl (add_account stats) (mkTotals 0 0 0 0) (seq 0 n).

(** ** The ticker of countdownTimer (lines 74-86)

    What one tick shows at clock [now]: nothing once the time is up, else
    the remaining seconds with the hours and minutes printed. *)
Definition ticker (endTime now : Z) : option (Z * Z * Z) :=
  let remaining := (endTime - now) / 1000 in
  if remaining <=? 0 then None
  else
    let hours := remaining / 3600 in
    let mins := (remaining mod 3600) / 60 in
    Some (remaining, hours, mins).

(** ** Confinement of one account's processing *)

(** How the record of the processed account may change: [startTime] stays
    and no counter decreases. *)
Definition own_step (s s' : AccountStats) : Prop :=
  startTime s' = startTime s
  ∧ errors s <= errors s' ∧ agents s <= agents s'
  ∧ requests s <= requests s' ∧ txs s <= txs s'.

(** Only account [i]'s record changes, and only by [own_step]. *)
Definition touches_only (i : nat) (m m' : gmap nat AccountStats) : Prop :=
  ∀ j, match m !! j, m' !! j with
       | Some s, Some s' => if decide (j = i) then own_step s s' else s' = s
       | None, None => True
       | _, _ => False
       end.

(** The events the processing of account [i] can emit: headers carry [i],
    waits are those of the retry policy. *)
Definition account_event (i : nat) (e : Event) : Prop :=
  match e with
  | EvSleep ms => ms = 5000 ∨ ms = 10000
  | EvHeader _ j => j = i
  | EvGenerateAI task => task = "createAgent"%string ∨ task = "createRequest"%string
  | EvContractCall method =>
      method = "addNewAgent"%string ∨ method = "addNewRequest"%string
  | _ => True
  end.

Definition confined_step {W} (i : nat) (st st' : State W) : Prop :=
  touches_only i (accountsStats st) (accountsStats st')
  ∧ emits (account_event i) st st'.

Definition confined {W A} (i : nat) (m : M W A) : Prop :=
  ∀ st r st', m st = (r, st') → confined_step i st st'.

(** ** The fields createAgent and createRequest read from the generated
    content (lines 171 and 229) *)

Definition agent_fields (agent : JsVal) : JsVal :=
  nullish_or agent (JsObj [("name_agent", JsStr ""); ("description", JsStr "")]).

Definition request_fields (request : JsVal) : JsVal :=
  nullish_or request (JsObj [("title", JsStr ""); ("description", JsStr "")]).

(** The generated request fails the validation of createRequest (line 231). *)
Definition invalid_request (request : JsVal) : bool :=
  negb (truthy (get_prop (request_fields request) "title"))
  || negb (truthy (get_prop (request_fields request) "description")).

(** ** Scripted faults

    A world whose collaborators fail where the switches say so and answer
    like [C] elsewhere. *)

Record Faults : Type := mkFaults {
  inviter_fails : bool;
  status_fails : bool;
  generator_fails : bool;
  text_unparsable : bool;
  platform_fails : bool;
  profile_fails : bool
}.

Definition no_faults : Faults := mkFaults false false false false false false.

Definition faulty (F : Faults) (C : Collab Z) : Collab Z :=
  mkCollab Z
    (Date_now C)
    (timer C)
    (fun text => if text_unparsable F then None else JSON_parse C text)
    (wallet_address C)
    (getNonce C)
    (sign_with_private_key C)
    (login C)
    (fun token w =>
       if inviter_fails F then (Throw (Rejected "inviter"), w) else setInviter C token w)
    (fun token address w =>
       if status_fails F then (Throw (Rejected "status"), w)
       else verifyDailyTask C token address w)
    (fun task kind w =>
       if generator_fails F then (Throw (Rejected "generator"), w)
       else generateAIResponse C task kind w)
    (fun token name description w =>
       if platform_fails F then (Throw (Rejected "platform"), w)
       else createNewAgent C token name description w)
    (fun token title description w =>
       if platform_fails F then (Throw (Rejected "platform"), w)
       else createNewRequest C token title description w)
    (contractCall C)
    (fun token w =>
       if profile_fails F then (Throw (Rejected "profile"), w) else getUserData C token w).

(** The scripted world with both tasks open and every answer well formed. *)
Definition open_tasks : Collab Z :=
  scripted (status_of (JsBool false) (JsBool false) 100) good_agent good_login.

(** ** The pacing and the bookkeeping of main's loop *)

(** The inter-account pause of line 477. *)
Definition is_pause (e : Event) : bool :=
  match e with
  | EvSleep ms => ms =? 3000
  | _ => false
  end.

Definition count_pauses (evs : list Event) : nat := length (List.filter is_pause evs).

(** Every record stays in the registry with its [startTime]. *)
Definition keeps_start (m m' : gmap nat AccountStats) : Prop :=
  ∀ j, match m !! j, m' !! j with
       | Some s, Some s' => startTime s' = startTime s
       | None, None => True
       | _, _ => False
       end.

(** * Verification *)

(** ** Numbers *)


(** ** The retry policy *)

Section RetryFacts.
Context {St E A : Type}.
Variable sleep : Z -> St -> St.
Variable undefined : A.
Variable fn : St -> Outcome E A * St.

Lemma retry_loop_unfold retries delay remaining i s :
  retry_loop sleep undefined fn retries delay (S remaining) i s
  = match fn s with
    | (Return a, s') => (Return a, s')
    | (Throw error, s') =>
        if Nat.eqb i (retries - 1) then (Throw error, s')
        else retry_loop sleep undefined fn retries delay remaining (S i)
                        (sleep (delay * 2 ^ Z.of_nat i) s')
    end.
Proof. reflexivity. Qed.

(** Any preorder on states respected by the operation and by the wait is
    respected by the whole loop. *)
Lemma retry_loop_rel (R : relation St) `{!PreOrder R} :
  (∀ s r s', fn s = (r, s') → R s s') →
  (∀ ms s, R s (sleep ms s)) →
  ∀ retries delay remaining i s r s',
    retry_loop sleep undefined fn retries delay remaining i s = (r, s') → R s s'.
Proof.
  intros Hfn Hsleep retries delay remaining.
  induction remaining as [|k IH]; intros i s r s' Hrun; simpl in Hrun.
  - injection Hrun as _ <-. reflexivity.
  - destruct (fn s) as [[a|e] s1] eqn:Hs.
    + injection Hrun as _ <-. eauto.
    + destruct (Nat.eqb i (retries - 1)).
      * injection Hrun as _ <-. eauto.
      * transitivity s1; [eauto|].
        transitivity (sleep (delay * 2 ^ Z.of_nat i) s1); eauto.
Qed.

Lemma retryWithBackoff_rel (R : relation St) `{!PreOrder R} :
  (∀ s r s', fn s = (r, s') → R s s') →
  (∀ ms s, R s (sleep ms s)) →
  ∀ retries delay s r s',
    retryWithBackoff sleep undefined fn retries delay s = (r, s') → R s s'.
Proof. intros Hfn Hsleep retries delay. apply retry_loop_rel; assumption. Qed.

(** The instrumented run computes what the plain run computes. *)
Lemma probe_erasure retries delay remaining i p :
  retry_loop sleep undefined fn retries delay remaining i (probed p)
  = (let '(r, p') := retry_loop (probe_sleep sleep) undefined (probe_fn fn)
                                retries delay remaining i p
     in (r, probed p')).
Proof.
  revert i p. induction remaining as [|k IH]; intros i p; simpl; [done|].
  unfold probe_fn at 1. destruct (fn (probed p)) as [[a|e] s1]; [done|].
  destruct (Nat.eqb i (retries - 1)); [done|].
  apply (IH (S i) (probe_sleep sleep _ (mkProbe s1 (S (runs p)) (waits p)))).
Qed.

(** The operation runs at most [remaining] times in the loop. *)
Lemma probe_runs_bound retries delay remaining i p :
  (runs (retry_loop (probe_sleep sleep) undefined (probe_fn fn)
                    retries delay remaining i p).2
   ≤ runs p + remaining)%nat.
Proof.
  revert i p. induction remaining as [|k IH]; intros i p; simpl; [lia|].
  unfold probe_fn at 1. destruct (fn (probed p)) as [[a|e] s1]; simpl; [lia|].
  destruct (Nat.eqb i (retries - 1)); simpl; [lia|].
  etransitivity; [apply IH|]. simpl. lia.
Qed.
End RetryFacts.

(** C1. With maxAttempts = 3 and baseDelay = 5000 the operation runs at most
    three times; the wait after the first failure is 5000 and after the
    second 10000; a success at any attempt is returned at once with no later
    attempt; when all three attempts fail, the outcome is the third
    attempt's own error, unchanged.  Stated on the run instrumented with an
    attempt counter and the list of waits, which the plain run equals once
    the instrumentation is dropped. *)
Theorem retryWithBackoff_three_attempts :
  ∀ (St E A : Type) (sleep : Z → St → St) (undefined : A)
    (fn : St → Outcome E A * St) (s : St),
    let plain := retryWithBackoff sleep undefined fn MAX_RETRIES RETRY_DELAY s in
    let run := retryWithBackoff (probe_sleep sleep) undefined (probe_fn fn)
                                MAX_RETRIES RETRY_DELAY (mkProbe s 0 []) in
    plain = (run.1, probed run.2)
    ∧ (runs run.2 ≤ 3)%nat
    ∧ match fn s with
      | (Return a, s1) => run = (Return a, mkProbe s1 1 [])
      | (Throw e1, s1) =>
          match fn (sleep 5000 s1) with
          | (Return a, s2) => run = (Return a, mkProbe s2 2 [5000])
          | (Throw e2, s2) =>
              match fn (sleep 10000 s2) with
              | (Return a, s3) => run = (Return a, mkProbe s3 3 [5000; 10000])
              | (Throw e3, s3) => run = (Throw e3, mkProbe s3 3 [5000; 10000])
              end
          end
      end.
Proof.
  intros St E A sleep undefined fn s plain run. split; [|split].
  - subst plain run. unfold retryWithBackoff.
    rewrite (probe_erasure sleep undefined fn _ _ _ _ (mkProbe s 0 [])).
    by destruct (retry_loop _ _ _ _ _ _ _ _).
  - subst run. unfold retryWithBackoff.
    apply (probe_runs_bound sleep undefined fn _ _ MAX_RETRIES 0 (mkProbe s 0 [])).
  - assert (Hrun : run = retry_loop (probe_sleep sleep) undefined (probe_fn fn)
                                    3 5000 3 0 (mkProbe s 0 [])) by done.
    rewrite Hrun. clear Hrun plain run. simpl. unfold probe_fn. simpl.
    change (5000 * 2 ^ Z.of_nat 0) with 5000.
    change (5000 * 2 ^ Z.of_nat 1) with 10000.
    destruct (fn s) as [[a|e1] s1]; [done|]. simpl.
    destruct (fn (sleep 5000 s1)) as [[a|e2] s2]; [done|]. simpl.
    destruct (fn (sleep 10000 s2)) as [[a|e3] s3]; done.
Qed.

(** The policy on an operation that fails twice and then succeeds: two
    waits, three runs, the third result returned. *)
Example retry_flaky_twice :
  retryWithBackoff (probe_sleep (fun _ n => n)) false (probe_fn (flaky 2))
                   MAX_RETRIES RETRY_DELAY (mkProbe 0%nat 0%nat [])
  = (Return true, mkProbe 3%nat 3%nat [5000; 10000]).
Proof. reflexivity. Qed.

(** An operation that keeps failing: the caller sees the third error. *)
Example retry_flaky_always :
  retryWithBackoff (fun _ n => n) false (flaky 9) MAX_RETRIES RETRY_DELAY 0%nat
  = (Throw 2%nat, 3%nat).
Proof. reflexivity. Qed.

(** ** Traces and statistics along a run *)

Lemma emits_refl {W} P (st : State W) : emits P st st.
Proof. exists []. by rewrite app_nil_r. Qed.

Lemma emits_trans {W} P (st1 st2 st3 : State W) :
  emits P st1 st2 → emits P st2 st3 → emits P st1 st3.
Proof.
  intros (evs & E1 & H1) (evs' & E2 & H2).
  exists (evs ++ evs'). rewrite E2, E1, app_assoc. split; [done|]. by apply Forall_app.
Qed.

Lemma emits_weaken {W} (P Q : Event → Prop) (st st' : State W) :
  (∀ e, P e → Q e) → emits P st st' → emits Q st st'.
Proof. intros HPQ (evs & E & H). exists evs. split; [done|]. eapply Forall_impl; eauto. Qed.

#[local] Instance quiet_preorder {W} P : PreOrder (@quiet W P).
Proof.
  split.
  - intros st. split; [done|apply emits_refl].
  - intros st1 st2 st3 [E1 H1] [E2 H2]. split; [congruence|].
    eapply emits_trans; eauto.
Qed.

#[local] Instance grows_preorder : PreOrder grows.
Proof.
  split.
  - intros s. unfold grows. lia.
  - intros s1 s2 s3. unfold grows. lia.
Qed.

#[local] Instance stats_grow_preorder : PreOrder stats_grow.
Proof.
  split.
  - intros m i. destruct (m !! i); [reflexivity|done].
  - intros m1 m2 m3 H12 H23 i. specialize (H12 i). specialize (H23 i).
    destruct (m1 !! i), (m2 !! i), (m3 !! i); try done. by etransitivity.
Qed.

Lemma stats_grow_insert (m : gmap nat AccountStats) i s s' :
  m !! i = Some s → grows s s' → stats_grow m (<[i := s']> m).
Proof.
  intros Hi Hg j. destruct (decide (i = j)) as [<-|Hne].
  - by rewrite Hi, lookup_insert_eq.
  - rewrite lookup_insert_ne by done. destruct (m !! j); [reflexivity|done].
Qed.

Lemma stats_grow_lookup (m m' : gmap nat AccountStats) i s :
  stats_grow m m' → m !! i = Some s → ∃ s', m' !! i = Some s' ∧ grows s s'.
Proof.
  intros H Hi. specialize (H i). rewrite Hi in H.
  destruct (m' !! i) as [s'|]; [eauto|done].
Qed.

Lemma stats_grow_dom (m m' : gmap nat AccountStats) i :
  stats_grow m m' → is_Some (m !! i) ↔ is_Some (m' !! i).
Proof.
  intros H. specialize (H i).
  destruct (m !! i), (m' !! i); try done; split; intros [? ?]; done.
Qed.

Lemma grows_counters_ok s s' : grows s s' → counters_ok s → counters_ok s'.
Proof. unfold grows, counters_ok. lia. Qed.

Lemma grows_counters_exact s s' : grows s s' → counters_exact s → counters_exact s'.
Proof. unfold grows, counters_exact. lia. Qed.

Section ProgramFacts.
Context {W : Type}.
Variable C : Collab W.

#[local] Arguments retry : simpl never.
#[local] Arguments call : simpl never.

Lemma call_spec {A} ev (f : W → Outcome JsError A * W) st r st' :
  call ev f st = (r, st') →
  accountsStats st' = accountsStats st ∧ trace st' = trace st ++ [ev].
Proof. unfold call. destruct (f (world st)). by intros [= <- <-]. Qed.

Lemma sleep_quiet P ms (st : State W) : P (EvSleep ms) → quiet P st (sleep C ms st).
Proof. intros HP. split; [done|]. exists [EvSleep ms]. split; [done|]. by constructor. Qed.

(** A retried collaborator call leaves the statistics alone; it emits the
    call once and then only further calls and waits. *)
Lemma retry_call_spec {A} ev (f : W → Outcome JsError (option A) * W) st r st' :
  retry C (call ev f) st = (r, st') →
  accountsStats st' = accountsStats st
  ∧ ∃ evs, trace st' = trace st ++ ev :: evs
           ∧ Forall (λ e, e = ev ∨ is_sleep e) evs.
Proof.
  unfold retry, retryWithBackoff, MAX_RETRIES. rewrite retry_loop_unfold.
  destruct (call ev f st) as [[a|e] st1] eqn:Hcall.
  - intros [= <- <-]. apply call_spec in Hcall as [-> ->]. split; [done|].
    exists []. by split.
  - change (Nat.eqb 0 (3 - 1)) with false. cbv iota.
    intros Hrun. apply call_spec in Hcall as [Hs Ht].
    set (P := λ e, e = ev ∨ is_sleep e).
    assert (quiet P (sleep C (RETRY_DELAY * 2 ^ Z.of_nat 0) st1) st') as [Hs' Ht'].
    { eapply (retry_loop_rel (sleep C) None (call ev f) (quiet P));
        [| |exact Hrun].
      - intros s r0 s' Hc. apply call_spec in Hc as [Hcs Hct]. split; [done|].
        exists [ev]. split; [done|]. constructor; [by left|done].
      - intros ms s. apply sleep_quiet. right. by eexists. }
    simpl in Hs'. split; [congruence|].
    destruct Ht' as (evs & -> & Hevs). simpl. rewrite Ht.
    exists (EvSleep (RETRY_DELAY * 2 ^ Z.of_nat 0) :: evs).
    split; [by rewrite <- !app_assoc|].
    constructor; [right; by eexists|done].
Qed.

(** Symbolic execution of a run equation: unfold the monad, split on every
    outcome, and replace each retried call by its specification. *)
Ltac use_retry :=
  repeat match goal with
         | H : retry _ (call _ _) _ = _ |- _ =>
             apply retry_call_spec in H;
             destruct H as (? & ? & ? & ?); simpl in *
         end.

Ltac use_call :=
  repeat match goal with
         | H : call _ _ _ = _ |- _ =>
             apply call_spec in H; destruct H as (? & ?); simpl in *
         end.

Ltac run_in H :=
  unfold bind, try_catch, ret, throw, header, do_sleep, date_now, now_seconds,
    update_stats in H;
  simpl in H; repeat case_match; simplify_eq; simpl in *; use_retry; use_call.

Ltac trace_eq :=
  repeat match goal with
         | H : trace ?s = _ |- _ => rewrite H in *; clear H
         | H : accountsStats ?s = _ |- _ => rewrite H in *; clear H
         end;
  rewrite <- ?app_assoc; simpl.

(** *** getToken never throws, never touches the statistics, and emits its
    header followed by handshake calls only. *)
Lemma getToken_spec private_key i st r st' :
  getToken C private_key i st = (r, st') →
  (∃ t, r = Return t)
  ∧ accountsStats st' = accountsStats st
  ∧ ∃ evs, trace st' = trace st ++ EvHeader Authentication i :: evs
           ∧ Forall auth_call evs.
Proof.
  unfold getToken. intros H. run_in H.
  all: trace_eq; split; [by eexists|split; [done|]].
  all: eexists; split; [reflexivity|].
  all: repeat (constructor; [done|]); constructor.
Qed.

Lemma retry_events_flow (flow : Event → Prop) ev evs :
  flow ev → (∀ ms, flow (EvSleep ms)) →
  Forall (λ e, e = ev ∨ is_sleep e) evs → Forall flow evs.
Proof.
  intros Hev Hsl H. eapply Forall_impl; [exact H|].
  intros e [->|[ms ->]]; auto.
Qed.

Lemma agent_flow_sleep ms : agent_flow_event (EvSleep ms).
Proof. right; right; right. by eexists. Qed.

Lemma request_flow_sleep ms : request_flow_event (EvSleep ms).
Proof. right; right; right. by eexists. Qed.

Ltac flow_events :=
  repeat first [rewrite Forall_app | rewrite Forall_cons | rewrite Forall_nil];
  repeat split;
  try (unfold agent_flow_event, request_flow_event; by auto);
  try (eapply retry_events_flow; [| |eassumption];
       [unfold agent_flow_event, request_flow_event; by auto
       |first [apply agent_flow_sleep|apply request_flow_sleep]]).

Ltac member :=
  repeat first [rewrite elem_of_cons | rewrite elem_of_app]; auto 12.

Ltac create_cases :=
  trace_eq; eexists; (split; [reflexivity|]); (split; [flow_events|]);
  simplify_map_eq;
  first
    [ left; done
    | right; right; right; done
    | right; left; eexists; done
    | right; right; left; eexists; (split; [done|]); (split; [done|]);
      rewrite ?insert_insert_eq; (split; [done|]); split; member ].

Lemma createAgent_spec session_token i st r st' :
  createAgent C session_token i st = (r, st') →
  create_outcome i CreatingAgent agent_flow_event incr_agents
                 EvCreateNewAgent (EvContractCall "addNewAgent") st r st'.
Proof.
  unfold createAgent, create_outcome. intros H. run_in H.
  all: create_cases.
Qed.

Lemma createRequest_spec session_token i st r st' :
  createRequest C session_token i st = (r, st') →
  create_outcome i CreatingRequest request_flow_event incr_requests
                 EvCreateNewRequest (EvContractCall "addNewRequest") st r st'.
Proof.
  unfold createRequest, create_outcome. intros H. run_in H.
  all: create_cases.
Qed.

(** *** Composition rules *)

#[local] Instance advance_preorder P : PreOrder (@advance W P).
Proof.
  split.
  - intros st. split; [reflexivity|apply emits_refl].
  - intros st1 st2 st3 [G1 E1] [G2 E2]. split; [by etransitivity|].
    eapply emits_trans; eauto.
Qed.

Lemma advance_weaken (P Q : Event → Prop) (st st' : State W) :
  (∀ e, P e → Q e) → advance P st st' → advance Q st st'.
Proof. intros HPQ [G E]. split; [done|]. eapply emits_weaken; eauto. Qed.

Lemma quiet_advance P (st st' : State W) : quiet P st st' → advance P st st'.
Proof. intros [E H]. split; [|done]. rewrite E. reflexivity. Qed.

Lemma advance_is_Some P (st st' : State W) i :
  advance P st st' →
  is_Some (accountsStats st !! i) → is_Some (accountsStats st' !! i).
Proof. intros [G _] Hi. by apply (stats_grow_dom _ _ i G). Qed.

Lemma safe_preserves {A} i P (m : M W A) : safe i P m → preserves P m.
Proof. intros H st r st' Hm. by apply (H st r st'). Qed.

Lemma preserves_weaken {A} (P Q : Event → Prop) (m : M W A) :
  (∀ e, P e → Q e) → preserves P m → preserves Q m.
Proof. intros HPQ H st r st' Hm. eapply advance_weaken; eauto. Qed.

Lemma safe_weaken {A} i (P Q : Event → Prop) (m : M W A) :
  (∀ e, P e → Q e) → safe i P m → safe i Q m.
Proof.
  intros HPQ H st r st' Hm. destruct (H st r st' Hm) as [Ha Ht].
  split; [eapply advance_weaken; eauto|done].
Qed.

Lemma safe_ret {A} i P (a : A) : safe i P (ret (W:=W) a).
Proof. intros st r st' [= <- <-]. split; [reflexivity|eauto]. Qed.

Lemma preserves_ret {A} P (a : A) : preserves P (ret (W:=W) a).
Proof. intros st r st' [= <- <-]. reflexivity. Qed.

Lemma preserves_throw {A} P e : preserves P (throw (W:=W) (A:=A) e).
Proof. intros st r st' [= <- <-]. reflexivity. Qed.

Lemma preserves_bind {A B} P (m : M W A) (k : A → M W B) :
  preserves P m → (∀ a, preserves P (k a)) → preserves P (bind m k).
Proof.
  intros Hm Hk st r st'. unfold bind.
  destruct (m st) as [[a|e] st1] eqn:E; intros Hrun.
  - transitivity st1; [eapply Hm|eapply Hk]; eauto.
  - injection Hrun as _ <-. eapply Hm; eauto.
Qed.

Lemma safe_bind {A B} i P (m : M W A) (k : A → M W B) :
  safe i P m → (∀ a, safe i P (k a)) → safe i P (bind m k).
Proof.
  intros Hm Hk st r st'. unfold bind.
  destruct (m st) as [[a|e] st1] eqn:E; intros Hrun.
  - destruct (Hm _ _ _ E) as [A1 _]. destruct (Hk _ _ _ _ Hrun) as [A2 T2].
    split; [by transitivity st1|]. intros Hi. apply T2.
    eapply advance_is_Some; eauto.
  - injection Hrun as <- <-. destruct (Hm _ _ _ E) as [A1 T1].
    split; [done|]. intros Hi. destruct (T1 Hi) as [a Ha]. discriminate.
Qed.

Lemma preserves_try_catch {A} P (m : M W A) (h : JsError → M W A) :
  preserves P m → (∀ e, preserves P (h e)) → preserves P (try_catch m h).
Proof.
  intros Hm Hh st r st'. unfold try_catch.
  destruct (m st) as [[a|e] st1] eqn:E; intros Hrun.
  - injection Hrun as _ <-. eapply Hm; eauto.
  - transitivity st1; [eapply Hm|eapply Hh]; eauto.
Qed.

(** A guarded block is safe as soon as its handler is. *)
Lemma safe_try_catch {A} i P (m : M W A) (h : JsError → M W A) :
  preserves P m → (∀ e, safe i P (h e)) → safe i P (try_catch m h).
Proof.
  intros Hm Hh st r st'. unfold try_catch.
  destruct (m st) as [[a|e] st1] eqn:E; intros Hrun.
  - injection Hrun as <- <-. split; [eapply Hm; eauto|eauto].
  - destruct (Hh _ _ _ _ Hrun) as [A2 T2]. pose proof (Hm _ _ _ E) as A1.
    split; [by transitivity st1|]. intros Hi. apply T2.
    eapply advance_is_Some; eauto.
Qed.

Lemma preserves_call {A} (P : Event → Prop) ev (f : W → Outcome JsError A * W) :
  P ev → preserves P (call ev f).
Proof.
  intros HP st r st' Hc. apply call_spec in Hc as [Hs Ht].
  apply quiet_advance. split; [done|]. exists [ev]. split; [done|]. by constructor.
Qed.

Lemma preserves_retry_call {A} (P : Event → Prop) ev
      (f : W → Outcome JsError (option A) * W) :
  P ev → (∀ ms, P (EvSleep ms)) → preserves P (retry C (call ev f)).
Proof.
  intros HP Hsl st r st' Hc. apply retry_call_spec in Hc as (Hs & evs & Ht & Hevs).
  apply quiet_advance. split; [done|]. exists (ev :: evs). split; [done|].
  constructor; [done|]. eapply Forall_impl; [exact Hevs|].
  intros e [->|[ms ->]]; auto.
Qed.

Lemma safe_header i (P : Event → Prop) stage j :
  P (EvHeader stage j) → safe i P (header (W:=W) stage j).
Proof.
  intros HP st r st' [= <- <-]. split; [|eauto].
  apply quiet_advance. split; [done|]. eexists. split; [done|]. by constructor.
Qed.

Lemma safe_do_sleep i (P : Event → Prop) ms :
  P (EvSleep ms) → safe i P (do_sleep C ms).
Proof.
  intros HP st r st' [= <- <-]. split; [|eauto].
  apply quiet_advance. by apply sleep_quiet.
Qed.

Lemma safe_date_now i P : safe i P (date_now C).
Proof. intros st r st' [= <- <-]. split; [reflexivity|eauto]. Qed.

Lemma safe_now_seconds i P : safe i P (now_seconds C).
Proof. intros st r st' [= <- <-]. split; [reflexivity|eauto]. Qed.

Lemma preserves_update_stats P j (f : AccountStats → AccountStats) :
  (∀ s, grows s (f s)) → preserves P (update_stats (W:=W) j f).
Proof.
  intros Hf st r st'. unfold update_stats.
  destruct (accountsStats st !! j) as [s|] eqn:E; intros [= <- <-].
  - split; [simpl; by eapply stats_grow_insert|].
    exists []. simpl. by rewrite app_nil_r.
  - reflexivity.
Qed.

Lemma safe_update_stats P i (f : AccountStats → AccountStats) :
  (∀ s, grows s (f s)) → safe i P (update_stats (W:=W) i f).
Proof.
  intros Hf st r st' Hrun. split; [by eapply preserves_update_stats|].
  revert Hrun. unfold update_stats.
  destruct (accountsStats st !! i) as [s|] eqn:E; intros [= <- <-]; [eauto|].
  by intros [? ?].
Qed.

(** *** Every operation of the program is an [advance] step *)

Lemma agent_flow_task e : agent_flow_event e → task_event e.
Proof. intros [->|[->|[->|[ms ->]]]] Ha; done. Qed.

Lemma request_flow_task e : request_flow_event e → task_event e.
Proof. intros [->|[->|[->|[ms ->]]]] Ha; done. Qed.

Lemma grows_incr_errors s : grows s (incr_errors s).
Proof. unfold grows. simpl. lia. Qed.
Lemma grows_agent_counted s : grows s (incr_txs (incr_agents s)).
Proof. unfold grows. simpl. lia. Qed.
Lemma grows_request_counted s : grows s (incr_txs (incr_requests s)).
Proof. unfold grows. simpl. lia. Qed.
Lemma grows_set_lastRun t s : grows s (set_lastRun t s).
Proof. unfold grows. simpl. lia. Qed.
Lemma grows_set_cooldownSeconds c s : grows s (set_cooldownSeconds c s).
Proof. unfold grows. simpl. lia. Qed.
Lemma grows_set_uid v s : grows s (set_uid v s).
Proof. unfold grows. simpl. lia. Qed.
Lemma grows_set_totalPoint v s : grows s (set_totalPoint v s).
Proof. unfold grows. simpl. lia. Qed.
Lemma grows_set_days v s : grows s (set_days v s).
Proof. unfold grows. simpl. lia. Qed.

Lemma create_outcome_safe i stage flow bump submit chain (st : State W) r st' :
  (∀ s, grows s (incr_txs (bump s))) →
  (∀ e, flow e → task_event e) →
  stage ≠ Authentication →
  create_outcome i stage flow bump submit chain st r st' →
  advance task_event st st'
  ∧ (is_Some (accountsStats st !! i) → ∃ a, r = Return a).
Proof.
  intros Hb Hflow Hstage (evs & Ht & Hevs & Hcase).
  assert (emits task_event st st') as He.
  { eexists. split; [exact Ht|]. constructor.
    - intros Ha. by destruct stage.
    - eapply Forall_impl; [exact Hevs|exact Hflow]. }
  destruct Hcase as [(-> & Hs)|[(s & Hi & -> & Hs)|[(s & Hi & -> & Hs & _)|(Hi & -> & Hs)]]].
  - split; [|eauto]. split; [|done]. rewrite Hs. reflexivity.
  - split; [|eauto]. split; [|done]. rewrite Hs.
    eapply stats_grow_insert; [done|apply grows_incr_errors].
  - split; [|eauto]. split; [|done]. rewrite Hs.
    eapply stats_grow_insert; [done|apply Hb].
  - split; [|rewrite Hi; by intros [? ?]]. split; [|done]. rewrite Hs. reflexivity.
Qed.

Lemma createAgent_safe session_token i :
  safe i task_event (createAgent C session_token i).
Proof.
  intros st r st' H. apply createAgent_spec in H.
  eapply create_outcome_safe; [apply grows_agent_counted|apply agent_flow_task| |exact H].
  done.
Qed.

Lemma createRequest_safe session_token i :
  safe i task_event (createRequest C session_token i).
Proof.
  intros st r st' H. apply createRequest_spec in H.
  eapply create_outcome_safe;
    [apply grows_request_counted|apply request_flow_task| |exact H].
  done.
Qed.

Lemma task_event_sleep ms : task_event (EvSleep ms).
Proof. by intros H. Qed.

Ltac safety :=
  repeat first
    [ apply safe_ret
    | apply safe_date_now
    | apply safe_now_seconds
    | apply createAgent_safe
    | apply createRequest_safe
    | apply safe_bind
    | apply safe_update_stats
    | apply preserves_ret
    | apply preserves_throw
    | apply preserves_bind
    | apply preserves_update_stats
    | apply preserves_call
    | apply preserves_retry_call
    | apply grows_incr_errors
    | apply grows_set_lastRun
    | apply grows_set_cooldownSeconds
    | apply grows_set_uid
    | apply grows_set_totalPoint
    | apply grows_set_days
    | apply task_event_sleep
    | progress cbv zeta
    | case_match
    | match goal with
      | |- ∀ _, _ => intro
      | |- preserves _ _ => eapply safe_preserves
      end ].

Lemma perform_tasks_safe session_token i status :
  safe i task_event (perform_tasks C session_token i status).
Proof. unfold perform_tasks. safety. Qed.

Lemma fetch_status_preserves tokenData :
  preserves task_event (fetch_status C tokenData).
Proof. unfold fetch_status. safety; by intros H. Qed.

Lemma executeDailyTasks_safe tokenData i :
  safe i task_event (executeDailyTasks C tokenData i).
Proof.
  unfold executeDailyTasks. apply safe_try_catch.
  - apply preserves_bind; [apply fetch_status_preserves|].
    intros [resp|]; [|apply preserves_ret].
    destruct (data resp) as [status|]; [|apply preserves_ret].
    case_match; [apply preserves_ret|].
    eapply safe_preserves, perform_tasks_safe.
  - safety.
Qed.

Lemma refresh_user_data_safe tokenData i :
  safe i task_event (refresh_user_data C tokenData i).
Proof.
  unfold refresh_user_data. apply safe_try_catch; [|safety].
  apply preserves_bind; [apply preserves_call; by intros H|].
  intros [resp|]; [|apply preserves_ret].
  destruct (data resp) as [user|]; [|apply preserves_ret].
  safety.
Qed.

Lemma run_account_tasks_safe tokenData i :
  safe i task_event (run_account_tasks C tokenData i).
Proof.
  unfold run_account_tasks. apply safe_bind; [apply executeDailyTasks_safe|].
  intros []; simpl; [|apply safe_ret].
  apply safe_bind; [apply refresh_user_data_safe|]. intros _. apply safe_ret.
Qed.

Lemma getToken_safe private_key i j :
  safe j any_event (getToken C private_key i).
Proof.
  intros st r st' H. apply getToken_spec in H as ((t & ->) & Hs & evs & Ht & _).
  split; [|eauto]. apply quiet_advance. split; [done|].
  eexists. split; [exact Ht|]. apply Forall_forall. by intros.
Qed.

Lemma checkTokenValid_safe expire j : safe j any_event (checkTokenValid C expire).
Proof. unfold checkTokenValid. safety. Qed.

Lemma authenticate_safe private_key i j :
  safe j any_event (authenticate C private_key i).
Proof.
  unfold authenticate. apply safe_bind; [apply getToken_safe|].
  intros [t|]; apply safe_ret.
Qed.

Lemma acquire_session_safe private_key i tokenData :
  safe i any_event (acquire_session C private_key i tokenData).
Proof.
  unfold acquire_session. destruct tokenData as [current|]; [|apply authenticate_safe].
  apply safe_bind; [apply checkTokenValid_safe|].
  intros []; [apply safe_ret|apply authenticate_safe].
Qed.

Lemma on_critical_error_safe i tokenData e :
  safe i any_event (on_critical_error (W:=W) i tokenData e).
Proof. unfold on_critical_error. safety. Qed.

Lemma processAccount_safe private_key i tokenData :
  safe i any_event (processAccount C private_key i tokenData).
Proof.
  unfold processAccount. apply safe_bind.
  - apply safe_try_catch; [eapply safe_preserves, acquire_session_safe|].
    intros e. apply safe_bind; [apply on_critical_error_safe|].
    intros result. apply safe_ret.
  - intros [result|tokenData']; [apply safe_ret|].
    apply safe_try_catch; [|apply on_critical_error_safe].
    eapply preserves_weaken; [|eapply safe_preserves, run_account_tasks_safe].
    by intros.
Qed.

(** *** The cycle loop *)

Lemma accounts_loop_advance n keys :
  ∀ i ms r ms',
    accounts_loop C n keys i ms = (r, ms') →
    advance any_event (prog ms) (prog ms').
Proof.
  induction keys as [|private_key rest IH]; intros i ms r ms'; simpl.
  - intros [= <- <-]. reflexivity.
  - destruct (processAccount C private_key i _ (prog ms)) as [[td|e] st1] eqn:E.
    + intros Hrest. apply IH in Hrest. simpl in Hrest.
      apply processAccount_safe in E as [HA _].
      transitivity st1; [done|]. etransitivity; [|exact Hrest].
      destruct (Nat.ltb i (n - 1)); [|reflexivity].
      apply quiet_advance, sleep_quiet. done.
    + intros [= <- <-]. simpl. by apply processAccount_safe in E as [HA _].
Qed.

Lemma cycle_advance keys hours ms :
  advance any_event (prog ms) (prog (cycle C keys hours ms)).
Proof.
  unfold cycle.
  destruct (accounts_loop C (length keys) keys 0 _) as [[[]|e] ms2] eqn:E;
    apply accounts_loop_advance in E; simpl in E.
  - unfold bind, summary, countdownTimer, do_sleep.
    destruct (accountsStats (prog ms2) !! 0%nat); simpl.
    + etransitivity; [exact E|]. by apply quiet_advance, sleep_quiet.
    + etransitivity; [exact E|]. by apply quiet_advance, sleep_quiet.
  - etransitivity; [exact E|]. by apply quiet_advance, sleep_quiet.
Qed.

Lemma cycles_advance keys hours n :
  ∀ ms, advance any_event (prog ms) (prog (cycles C keys hours n ms)).
Proof.
  induction n as [|n IH]; intros ms; simpl; [reflexivity|].
  etransitivity; [apply cycle_advance|apply IH].
Qed.

Lemma init_stats_lookup n now i :
  init_stats n now !! i = if decide (i < n)%nat then Some (initial_stats now) else None.
Proof.
  unfold init_stats.
  assert (∀ l (m : gmap nat AccountStats),
            foldl (λ stats index, <[index := initial_stats now]> stats) m l !! i
            = if decide (i ∈ l) then Some (initial_stats now) else m !! i) as Hfold.
  { induction l as [|j l IH]; intros m; cbn [foldl].
    - case_decide as Hin; [by apply elem_of_nil in Hin|done].
    - rewrite IH.
      destruct (decide (i ∈ l)) as [Hl|Hl], (decide (i ∈ j :: l)) as [Hjl|Hjl];
        try done.
      + exfalso. set_solver.
      + apply elem_of_cons in Hjl as [Hij|Hil]; [|done].
        subst j. by rewrite lookup_insert_eq.
      + rewrite lookup_insert_ne; [done|]. set_solver. }
  rewrite Hfold, lookup_empty.
  destruct (decide (i ∈ seq 0 n)) as [Hin|Hin], (decide (i < n)%nat) as [Hlt|Hlt];
    try done.
  - exfalso. apply elem_of_seq in Hin. lia.
  - exfalso. apply Hin. apply elem_of_seq. lia.
Qed.

Lemma advance_stats_inv (P : AccountStats → Prop) Q (st st' : State W) :
  (∀ s s', grows s s' → P s → P s') →
  advance Q st st' →
  stats_inv P (accountsStats st) → stats_inv P (accountsStats st').
Proof.
  intros HP [G _] Hinv i s' Hi. specialize (G i). rewrite Hi in G.
  destruct (accountsStats st !! i) as [s|] eqn:E; [|done]. eauto.
Qed.

Lemma safe_keeps {A} (P : AccountStats → Prop) i Q (m : M W A) :
  (∀ s s', grows s s' → P s → P s') → safe i Q m → keeps P m.
Proof.
  intros HP Hm st r st' Hrun. eapply advance_stats_inv; [done|].
  by apply (Hm st r st').
Qed.

(** After any number of cycles every configured account has its record,
    and every record is reached from the initial one by growth. *)
Lemma main_stats keys hours n w (P : AccountStats → Prop) :
  (∀ s s', grows s s' → P s → P s') →
  (∀ now, P (initial_stats now)) →
  (∀ i, (i < length keys)%nat →
        is_Some (accountsStats (prog (main C keys hours n w)) !! i))
  ∧ stats_inv P (accountsStats (prog (main C keys hours n w))).
Proof.
  intros Hgrow Hinit. unfold main.
  destruct keys as [|k keys]; [split; [simpl; lia|done]|].
  set (keys' := k :: keys).
  pose proof (cycles_advance keys' hours n (main_init C keys' w)) as Hadv.
  split.
  - intros i Hi. eapply advance_is_Some; [exact Hadv|]. simpl.
    rewrite init_stats_lookup. by rewrite decide_True.
  - eapply advance_stats_inv; [exact Hgrow|exact Hadv|]. simpl.
    intros i s. rewrite init_stats_lookup. case_decide; [|done].
    intros [= <-]. apply Hinit.
Qed.

(** What a creation flow did to the counters of its account. *)
Lemma create_outcome_counters i stage flow bump submit chain
      (st : State W) r st' s s' :
  create_outcome i stage flow bump submit chain st r st' →
  accountsStats st !! i = Some s →
  accountsStats st' !! i = Some s' →
  s' = s ∨ s' = incr_errors s
  ∨ (s' = incr_txs (bump s) ∧ r = Return true
     ∧ ∃ evs, trace st' = trace st ++ evs ∧ submit ∈ evs ∧ chain ∈ evs).
Proof.
  intros (evs & Ht & _ & Hcase) Hi Hi'.
  destruct Hcase as [(-> & Hs)|[(s0 & Hi0 & -> & Hs)|[(s0 & Hi0 & -> & Hs & Hin)|(Hi0 & _)]]].
  - left. congruence.
  - right; left. rewrite Hs, lookup_insert_eq in Hi'. congruence.
  - right; right. rewrite Hs, lookup_insert_eq in Hi'.
    split; [congruence|]. split; [done|]. eexists. split; [exact Ht|].
    destruct Hin. split; by apply elem_of_cons; right.
  - congruence.
Qed.

(** *** Paths through executeDailyTasks *)

Lemma fetch_status_spec tokenData st r st' :
  fetch_status C tokenData st = (r, st') →
  accountsStats st' = accountsStats st
  ∧ ∃ evs, trace st' = trace st ++ evs ∧ Forall status_query_event evs.
Proof.
  unfold fetch_status. intros H.
  apply retry_call_spec in H as (Hs & evs & Ht & Hevs).
  split; [done|]. exists (EvVerifyDailyTask :: evs). split; [done|].
  constructor; [by left|done].
Qed.

(** A response that fails validation ends the call at once. *)
Lemma executeDailyTasks_rejected tokenData i st response st1 :
  fetch_status C tokenData st = (Return response, st1) →
  lacks_flags response = true →
  executeDailyTasks C tokenData i st = (Return false, st1).
Proof.
  intros Hfetch Hlack. unfold executeDailyTasks, try_catch, bind.
  rewrite Hfetch. unfold lacks_flags in Hlack.
  destruct response as [response|]; [|done].
  destruct (data response) as [status|]; [|done].
  by rewrite Hlack.
Qed.

(** A response that passes validation hands over to the task block. *)
Lemma executeDailyTasks_validated tokenData i st response status st1 :
  fetch_status C tokenData st = (Return (Some response), st1) →
  data response = Some status →
  is_undefined (is_create_agent status) = false →
  is_undefined (is_create_request status) = false →
  executeDailyTasks C tokenData i st
  = try_catch (perform_tasks C (token tokenData) i status)
              (λ error, bind (update_stats i incr_errors) (λ _, ret false)) st1.
Proof.
  intros Hfetch Hdata Ha Hr. unfold executeDailyTasks, try_catch at 1, bind at 1.
  rewrite Hfetch, Hdata, Ha, Hr. reflexivity.
Qed.

(** With a statistics record in place, the task block returns [true]
    having stored the cooldown computed on entry. *)
Lemma perform_tasks_cooldown session_token i status st s :
  accountsStats st !! i = Some s →
  ∃ st' s',
    perform_tasks C session_token i status st = (Return true, st')
    ∧ accountsStats st' !! i = Some s'
    ∧ cooldownSeconds s'
      = to_double (to_double (finish_time status + 86400)
                   - Date_now C (world st) / 1000)
    ∧ is_Some (lastRun s').
Proof.
  intros Hi. unfold perform_tasks, bind at 1, now_seconds at 1.
  unfold bind at 1.
  set (agent_step := if negb (truthy (is_create_agent status))
                     then createAgent C session_token i else ret false).
  assert (safe i task_event agent_step) as Hsafe_a
      by (subst agent_step; case_match; [apply createAgent_safe|apply safe_ret]).
  destruct (agent_step st) as [ra s1] eqn:Ea.
  destruct (Hsafe_a _ _ _ Ea) as [Adv1 Tot1].
  destruct Tot1 as [agentResult ->]; [by eexists|].
  unfold bind at 1.
  set (request_step := if negb (truthy (is_create_request status))
                       then createRequest C session_token i else ret false).
  assert (safe i task_event request_step) as Hsafe_r
      by (subst request_step; case_match; [apply createRequest_safe|apply safe_ret]).
  destruct (request_step s1) as [rr s2] eqn:Er.
  destruct (Hsafe_r _ _ _ Er) as [Adv2 Tot2].
  assert (is_Some (accountsStats s1 !! i)) as Hi1
      by (eapply advance_is_Some; [exact Adv1|by eexists]).
  destruct Tot2 as [requestResult ->]; [done|].
  assert (is_Some (accountsStats s2 !! i)) as [s2i Hi2]
      by (eapply advance_is_Some; [exact Adv2|done]).
  cbv zeta. unfold bind, date_now, update_stats, ret. simpl.
  rewrite Hi2. simpl. rewrite lookup_insert_eq. simpl.
  eexists _, _. split; [reflexivity|]. simpl. rewrite lookup_insert_eq.
  split; [reflexivity|]. simpl. split; [reflexivity|by eexists].
Qed.

(** *** Paths through processAccount *)

Lemma checkTokenValid_run expire st :
  checkTokenValid C expire st
  = (Return (negb (expire <=? Date_now C (world st) / 1000)), st).
Proof.
  unfold checkTokenValid, bind, now_seconds, ret.
  by destruct (expire <=? Date_now C (world st) / 1000).
Qed.

Lemma acquire_session_auth private_key i tokenData st :
  needs_auth tokenData (Date_now C (world st) / 1000) = true →
  acquire_session C private_key i tokenData st = authenticate C private_key i st.
Proof.
  unfold acquire_session, needs_auth. destruct tokenData as [current|]; [|done].
  intros Hexp. unfold bind. rewrite checkTokenValid_run, Hexp. reflexivity.
Qed.

Lemma processAccount_auth_failed private_key i tokenData st st1 :
  needs_auth tokenData (Date_now C (world st) / 1000) = true →
  getToken C private_key i st = (Return None, st1) →
  processAccount C private_key i tokenData st = (Return None, st1).
Proof.
  intros Hneed Hauth. unfold processAccount, bind at 1, try_catch.
  rewrite acquire_session_auth by done.
  unfold authenticate, bind at 1. by rewrite Hauth.
Qed.

Lemma processAccount_auth_ok private_key i tokenData st tokenData' st1 :
  needs_auth tokenData (Date_now C (world st) / 1000) = true →
  getToken C private_key i st = (Return (Some tokenData'), st1) →
  processAccount C private_key i tokenData st
  = try_catch (run_account_tasks C tokenData' i)
              (on_critical_error i (Some tokenData')) st1.
Proof.
  intros Hneed Hauth. unfold processAccount, bind at 1, try_catch at 1.
  rewrite acquire_session_auth by done.
  unfold authenticate, bind at 1. by rewrite Hauth.
Qed.

Lemma processAccount_valid private_key i current st :
  needs_auth (Some current) (Date_now C (world st) / 1000) = false →
  processAccount C private_key i (Some current) st
  = try_catch (run_account_tasks C current i)
              (on_critical_error i (Some current)) st.
Proof.
  simpl. intros Hvalid. unfold processAccount, bind at 1, try_catch at 1.
  unfold acquire_session, bind at 1. rewrite checkTokenValid_run, Hvalid.
  reflexivity.
Qed.

(** The guarded task part of processAccount emits task events only. *)
Lemma guarded_tasks_preserves i tokenData :
  preserves task_event
    (try_catch (run_account_tasks C tokenData i)
               (on_critical_error (W:=W) i (Some tokenData))).
Proof.
  apply preserves_try_catch; [eapply safe_preserves, run_account_tasks_safe|].
  intros e. unfold on_critical_error. safety.
Qed.
End ProgramFacts.

(** ** Where a counted creation comes from *)

Section CountedFacts.
Context {W : Type}.
Variable C : Collab W.

#[local] Arguments retry : simpl never.
#[local] Arguments call : simpl never.

Lemma call_answer {A} ev (f : W → Outcome JsError A * W) st r st' :
  call ev f st = (r, st') →
  f (world st) = (r, world st') ∧ accountsStats st' = accountsStats st.
Proof. unfold call. destruct (f (world st)). by intros [= <- <-]. Qed.

(** A retried call that returns hands over the answer the collaborator gave
    at its last attempt, and leaves the statistics alone. *)
Lemma retry_call_returned {A} ev (f : W → Outcome JsError (option A) * W) st a st' :
  retry C (call ev f) st = (Return a, st') →
  accountsStats st' = accountsStats st ∧ ∃ w, f w = (Return a, world st').
Proof.
  unfold retry, retryWithBackoff, MAX_RETRIES, RETRY_DELAY.
  rewrite !retry_loop_unfold. unfold call, sleep. simpl.
  destruct (f (world st)) as [[a1|e1] w1] eqn:E1.
  { intros [= <- <-]. split; [done|]. by exists (world st). }
  cbn [world trace accountsStats].
  destruct (f (timer C _ w1)) as [[a2|e2] w2] eqn:E2.
  { intros [= <- <-]. split; [done|]. by eexists. }
  cbn [world trace accountsStats].
  destruct (f (timer C _ w2)) as [[a3|e3] w3] eqn:E3; intros [= <- <-].
  split; [done|]. by eexists.
Qed.

(** Symbolic execution of a creation flow that returned [true]: only the
    path through both guards is left. *)
Ltac counted_path H :=
  unfold bind, try_catch, header, ret, throw, update_stats in H;
  simpl in H; repeat case_match; simplify_eq;
  repeat match goal with
         | H : call _ _ _ = _ |- _ => apply call_answer in H as [? ?]
         end;
  repeat match goal with
         | H : retry _ (call _ _) _ = _ |- _ =>
             apply retry_call_returned in H as [? [? ?]]
         end;
  simpl in *;
  repeat match goal with
         | H : accountsStats _ = _ |- _ => rewrite H in *; clear H
         end;
  simpl in *;
  match goal with
  | H : <[_:=_]> _ !! _ = Some _ |- _ =>
      rewrite lookup_insert_eq in H; injection H as <-
  end;
  rewrite insert_insert_eq.

(** createAgent returns [true] only when the generated agent had a name and
    a description, the platform answered with a record whose [id] is
    truthy, and the chain call for that [id] answered with a truthy [hash];
    the account's [agents] and [txs] are then incremented once. *)
Lemma createAgent_counted session_token i st st' :
  createAgent C session_token i st = (Return true, st') →
  ∃ text w0 agent response created w1 w1' txResult w2 s,
    generateAIResponse C "create agent" "createAgent" (world st) = (Return text, w0)
    ∧ JSON_parse C text = Some agent
    ∧ invalid_agent agent = false
    ∧ createNewAgent C session_token
        (get_prop (agent_fields agent) "name_agent")
        (get_prop (agent_fields agent) "description") w1
      = (Return (Some response), w1')
    ∧ data response = Some created
    ∧ truthy (id created) = true
    ∧ contractCall C "addNewAgent"
        [id created; get_prop (agent_fields agent) "name_agent";
         get_prop (agent_fields agent) "description"] w2
      = (Return (Some txResult), world st')
    ∧ truthy (hash txResult) = true
    ∧ accountsStats st !! i = Some s
    ∧ accountsStats st' = <[i := incr_txs (incr_agents s)]> (accountsStats st).
Proof.
  unfold createAgent. intros H. counted_path H.
  eexists _, _, _, _, _, _, _, _, _, _.
  repeat apply conj; try eassumption; done.
Qed.

(** The same for createRequest, with [requests] in place of [agents]. *)
Lemma createRequest_counted session_token i st st' :
  createRequest C session_token i st = (Return true, st') →
  ∃ text w0 request response created w1 w1' txResult w2 s,
    generateAIResponse C "create request" "createRequest" (world st) = (Return text, w0)
    ∧ JSON_parse C text = Some request
    ∧ invalid_request request = false
    ∧ createNewRequest C session_token
        (get_prop (request_fields request) "title")
        (get_prop (request_fields request) "description") w1
      = (Return (Some response), w1')
    ∧ data response = Some created
    ∧ truthy (id created) = true
    ∧ contractCall C "addNewRequest"
        [id created; get_prop (request_fields request) "title"] w2
      = (Return (Some txResult), world st')
    ∧ truthy (hash txResult) = true
    ∧ accountsStats st !! i = Some s
    ∧ accountsStats st' = <[i := incr_txs (incr_requests s)]> (accountsStats st).
Proof.
  unfold createRequest. intros H. counted_path H.
  eexists _, _, _, _, _, _, _, _, _, _.
  repeat apply conj; try eassumption; done.
Qed.
End CountedFacts.

(** ** The counters *)

(** C2. For every configured account, after any number of cycles,
    [errors >= 0] and [txs <= agents + requests]; createAgent, createRequest,
    executeDailyTasks, processAccount and a whole cycle keep this for every
    record; and a creation flow changes [txs] only when its creation
    succeeded: the flow returns [true], the platform answered the creation
    call with a record whose [id] is truthy, the chain call for that [id]
    answered with a truthy [hash], and [txs] and [agents] (or [requests])
    of that account went up by one together. *)
Theorem counters_ok_invariant :
  ∀ (W : Type) (C : Collab W),
    (∀ keys hours n w i,
        (i < length keys)%nat →
        ∃ s, accountsStats (prog (main C keys hours n w)) !! i = Some s
             ∧ 0 <= errors s ∧ txs s <= agents s + requests s)
    ∧ (∀ session_token i, keeps counters_ok (createAgent C session_token i))
    ∧ (∀ session_token i, keeps counters_ok (createRequest C session_token i))
    ∧ (∀ tokenData i, keeps counters_ok (executeDailyTasks C tokenData i))
    ∧ (∀ private_key i tokenData,
          keeps counters_ok (processAccount C private_key i tokenData))
    ∧ (∀ keys hours ms,
          stats_inv counters_ok (accountsStats (prog ms)) →
          stats_inv counters_ok (accountsStats (prog (cycle C keys hours ms))))
    ∧ (∀ session_token i st r st' s s',
          createAgent C session_token i st = (r, st') →
          accountsStats st !! i = Some s →
          accountsStats st' !! i = Some s' →
          txs s' ≠ txs s →
          r = Return true ∧ txs s' = txs s + 1 ∧ agents s' = agents s + 1
          ∧ (∃ evs, trace st' = trace st ++ evs
                    ∧ EvCreateNewAgent ∈ evs
                    ∧ EvContractCall "addNewAgent" ∈ evs)
          ∧ ∃ text w0 agent response created w1 w1' txResult w2,
              generateAIResponse C "create agent" "createAgent" (world st)
              = (Return text, w0)
              ∧ JSON_parse C text = Some agent
              ∧ invalid_agent agent = false
              ∧ createNewAgent C session_token
                  (get_prop (agent_fields agent) "name_agent")
                  (get_prop (agent_fields agent) "description") w1
                = (Return (Some response), w1')
              ∧ data response = Some created
              ∧ truthy (id created) = true
              ∧ contractCall C "addNewAgent"
                  [id created; get_prop (agent_fields agent) "name_agent";
                   get_prop (agent_fields agent) "description"] w2
                = (Return (Some txResult), world st')
              ∧ truthy (hash txResult) = true
              ∧ accountsStats st'
                = <[i := incr_txs (incr_agents s)]> (accountsStats st))
    ∧ (∀ session_token i st r st' s s',
          createRequest C session_token i st = (r, st') →
          accountsStats st !! i = Some s →
          accountsStats st' !! i = Some s' →
          txs s' ≠ txs s →
          r = Return true ∧ txs s' = txs s + 1 ∧ requests s' = requests s + 1
          ∧ (∃ evs, trace st' = trace st ++ evs
                    ∧ EvCreateNewRequest ∈ evs
                    ∧ EvContractCall "addNewRequest" ∈ evs)
          ∧ ∃ text w0 request response created w1 w1' txResult w2,
              generateAIResponse C "create request" "createRequest" (world st)
              = (Return text, w0)
              ∧ JSON_parse C text = Some request
              ∧ invalid_request request = false
              ∧ createNewRequest C session_token
                  (get_prop (request_fields request) "title")
                  (get_prop (request_fields request) "description") w1
                = (Return (Some response), w1')
              ∧ data response = Some created
              ∧ truthy (id created) = true
              ∧ contractCall C "addNewRequest"
                  [id created; get_prop (request_fields request) "title"] w2
                = (Return (Some txResult), world st')
              ∧ truthy (hash txResult) = true
              ∧ accountsStats st'
                = <[i := incr_txs (incr_requests s)]> (accountsStats st)).
Proof.
  intros W C.
  assert (∀ s s', grows s s' → counters_ok s → counters_ok s') as Hgrow
      by apply grows_counters_ok.
  repeat apply conj.
  - intros keys hours n w i Hi.
    destruct (main_stats C keys hours n w counters_ok Hgrow) as [Hdom Hinv].
    { intros now. unfold counters_ok. simpl. lia. }
    destruct (Hdom i Hi) as [s Hs]. exists s. split; [done|].
    apply (Hinv i s Hs).
  - intros session_token i. eapply safe_keeps; [done|apply createAgent_safe].
  - intros session_token i. eapply safe_keeps; [done|apply createRequest_safe].
  - intros tokenData i. eapply safe_keeps; [done|apply executeDailyTasks_safe].
  - intros private_key i tokenData.
    eapply safe_keeps; [done|apply processAccount_safe].
  - intros keys hours ms. eapply advance_stats_inv; [done|apply cycle_advance].
  - intros session_token i st r st' s s' Hrun Hs Hs' Hne.
    pose proof (createAgent_spec _ _ _ _ _ _ Hrun) as Hout.
    destruct (create_outcome_counters _ _ _ _ _ _ _ _ _ _ _ Hout Hs Hs')
      as [->|[->|(-> & -> & Hev)]]; [done|done|].
    split; [done|]. split; [done|]. split; [done|]. split; [exact Hev|].
    destruct (createAgent_counted C _ _ _ _ Hrun)
      as (text & w0 & agent & response & created & w1 & w1' & txResult & w2 & s0
          & Hgen & Hparse & Hvalid & Hsubmit & Hdata & Hid & Hchain & Hhash
          & Hs0 & Hstats).
    assert (s0 = s) as -> by congruence.
    by exists text, w0, agent, response, created, w1, w1', txResult, w2.
  - intros session_token i st r st' s s' Hrun Hs Hs' Hne.
    pose proof (createRequest_spec _ _ _ _ _ _ Hrun) as Hout.
    destruct (create_outcome_counters _ _ _ _ _ _ _ _ _ _ _ Hout Hs Hs')
      as [->|[->|(-> & -> & Hev)]]; [done|done|].
    split; [done|]. split; [done|]. split; [done|]. split; [exact Hev|].
    destruct (createRequest_counted C _ _ _ _ Hrun)
      as (text & w0 & request & response & created & w1 & w1' & txResult & w2 & s0
          & Hgen & Hparse & Hvalid & Hsubmit & Hdata & Hid & Hchain & Hhash
          & Hs0 & Hstats).
    assert (s0 = s) as -> by congruence.
    by exists text, w0, request, response, created, w1, w1', txResult, w2.
Qed.

(** One key, three cycles in the scripted world: the account's counters
    satisfy the bound. *)
Lemma counters_ok_invariant_witness :
  (0 < length ["0xkey0123456"%string])%nat
  ∧ ∃ s, accountsStats
           (prog (main (scripted (status_of (JsBool false) (JsBool false) 100)
                                 good_agent good_login)
                       ["0xkey0123456"%string] 12 3 0)) !! 0%nat = Some s
         ∧ 0 <= errors s ∧ txs s <= agents s + requests s.
Proof.
  split; [simpl; lia|].
  apply (proj1 (counters_ok_invariant Z
                  (scripted (status_of (JsBool false) (JsBool false) 100)
                            good_agent good_login))
               ["0xkey0123456"%string] 12 3%nat 0 0%nat).
  simpl. lia.
Defined.

(** C10. For every configured account, after any number of cycles,
    [txs = agents + requests] exactly: the three counters start at 0, every
    operation keeps the equality, createAgent moves [txs] and [agents]
    together by one or not at all and leaves [requests] alone, and
    createRequest does the same with [requests]. *)
Theorem counters_exact_invariant :
  ∀ (W : Type) (C : Collab W),
    (∀ keys hours n w i,
        (i < length keys)%nat →
        ∃ s, accountsStats (prog (main C keys hours n w)) !! i = Some s
             ∧ txs s = agents s + requests s)
    ∧ (∀ keys w i s,
          accountsStats (prog (main_init C keys w)) !! i = Some s →
          agents s = 0 ∧ requests s = 0 ∧ txs s = 0)
    ∧ (∀ session_token i, keeps counters_exact (createAgent C session_token i))
    ∧ (∀ session_token i, keeps counters_exact (createRequest C session_token i))
    ∧ (∀ tokenData i, keeps counters_exact (executeDailyTasks C tokenData i))
    ∧ (∀ private_key i tokenData,
          keeps counters_exact (processAccount C private_key i tokenData))
    ∧ (∀ keys hours ms,
          stats_inv counters_exact (accountsStats (prog ms)) →
          stats_inv counters_exact (accountsStats (prog (cycle C keys hours ms))))
    ∧ (∀ session_token i st r st' s s',
          createAgent C session_token i st = (r, st') →
          accountsStats st !! i = Some s →
          accountsStats st' !! i = Some s' →
          requests s' = requests s
          ∧ ((agents s' = agents s ∧ txs s' = txs s)
             ∨ (agents s' = agents s + 1 ∧ txs s' = txs s + 1)))
    ∧ (∀ session_token i st r st' s s',
          createRequest C session_token i st = (r, st') →
          accountsStats st !! i = Some s →
          accountsStats st' !! i = Some s' →
          agents s' = agents s
          ∧ ((requests s' = requests s ∧ txs s' = txs s)
             ∨ (requests s' = requests s + 1 ∧ txs s' = txs s + 1))).
Proof.
  intros W C.
  assert (∀ s s', grows s s' → counters_exact s → counters_exact s') as Hgrow
      by apply grows_counters_exact.
  repeat apply conj.
  - intros keys hours n w i Hi.
    destruct (main_stats C keys hours n w counters_exact Hgrow) as [Hdom Hinv].
    { intros now. unfold counters_exact. simpl. lia. }
    destruct (Hdom i Hi) as [s Hs]. exists s. split; [done|].
    apply (Hinv i s Hs).
  - intros keys w i s. simpl. rewrite init_stats_lookup.
    case_decide; [|done]. by intros [= <-].
  - intros session_token i. eapply safe_keeps; [done|apply createAgent_safe].
  - intros session_token i. eapply safe_keeps; [done|apply createRequest_safe].
  - intros tokenData i. eapply safe_keeps; [done|apply executeDailyTasks_safe].
  - intros private_key i tokenData.
    eapply safe_keeps; [done|apply processAccount_safe].
  - intros keys hours ms. eapply advance_stats_inv; [done|apply cycle_advance].
  - intros session_token i st r st' s s' Hrun Hs Hs'.
    apply createAgent_spec in Hrun.
    destruct (create_outcome_counters _ _ _ _ _ _ _ _ _ _ _ Hrun Hs Hs')
      as [->|[->|(-> & Hr & Hev)]]; simpl; auto.
  - intros session_token i st r st' s s' Hrun Hs Hs'.
    apply createRequest_spec in Hrun.
    destruct (create_outcome_counters _ _ _ _ _ _ _ _ _ _ _ Hrun Hs Hs')
      as [->|[->|(-> & Hr & Hev)]]; simpl; auto.
Qed.

(** Two keys, two cycles in the scripted world: the second account's
    counters are in exact balance. *)
Lemma counters_exact_invariant_witness :
  (1 < length ["0xkey0123456"%string; "0xkey6543210"%string])%nat
  ∧ ∃ s, accountsStats
           (prog (main (scripted (status_of (JsBool false) (JsBool true) 100)
                                 good_agent good_login)
                       ["0xkey0123456"%string; "0xkey6543210"%string] 12 2 0))
           !! 1%nat = Some s
         ∧ txs s = agents s + requests s.
Proof.
  split; [simpl; lia|].
  apply (proj1 (counters_exact_invariant Z
                  (scripted (status_of (JsBool false) (JsBool true) 100)
                            good_agent good_login))
               ["0xkey0123456"%string; "0xkey6543210"%string] 12 2%nat 0 1%nat).
  simpl. lia.
Defined.

(** ** The daily-task workflow *)

Lemma status_query_not_creation e : status_query_event e → ¬ creation_event e.
Proof. intros [->|[ms ->]] H; exact H. Qed.

(** A status response without the flags: the call returns [false] in the
    state the query left, whose statistics are those it started with. *)
Lemma executeDailyTasks_lacking_flags {W} (C : Collab W) tokenData i st response st1 :
  fetch_status C tokenData st = (Return response, st1) →
  lacks_flags response = true →
  executeDailyTasks C tokenData i st = (Return false, st1)
  ∧ accountsStats st1 = accountsStats st
  ∧ ∃ evs, trace st1 = trace st ++ evs ∧ Forall status_query_event evs.
Proof.
  intros Hfetch Hlack. split; [by eapply executeDailyTasks_rejected|].
  by apply fetch_status_spec in Hfetch.
Qed.

(** C3, as the code has it.  When the status response lacks the completion
    flags (no response, no [data], or a flag undefined), executeDailyTasks
    returns [false], leaves the account's [errors] counter as it was, and
    issues no generation, creation or chain call: the only events are those
    of the status query. *)
Theorem missing_flags_no_error_no_creation :
  ∀ (W : Type) (C : Collab W) tokenData i st response st1 r st',
    fetch_status C tokenData st = (Return response, st1) →
    lacks_flags response = true →
    executeDailyTasks C tokenData i st = (r, st') →
    r = Return false
    ∧ (∀ s, accountsStats st !! i = Some s →
            ∃ s', accountsStats st' !! i = Some s' ∧ errors s' = errors s)
    ∧ ∃ evs, trace st' = trace st ++ evs ∧ Forall (λ e, ¬ creation_event e) evs.
Proof.
  intros W C tokenData i st response st1 r st' Hfetch Hlack Hrun.
  destruct (executeDailyTasks_lacking_flags C tokenData i st response st1 Hfetch Hlack)
    as (Hrun' & Hstats & evs & Ht & Hevs).
  rewrite Hrun' in Hrun. injection Hrun as <- <-.
  split; [done|]. split.
  - intros s Hs. exists s. by rewrite Hstats.
  - exists evs. split; [done|].
    eapply Forall_impl; [exact Hevs|apply status_query_not_creation].
Qed.

Lemma missing_flags_no_error_no_creation_witness :
  let C := scripted (status_of JsUndefined (JsBool false) 100) good_agent good_login in
  let run := executeDailyTasks C demo_token 0 (one_account 5000) in
  run.1 = Return false
  ∧ (∀ s, accountsStats (one_account 5000) !! 0%nat = Some s →
          ∃ s', accountsStats run.2 !! 0%nat = Some s' ∧ errors s' = errors s)
  ∧ ∃ evs, trace run.2 = trace (one_account 5000) ++ evs
           ∧ Forall (λ e, ¬ creation_event e) evs.
Proof.
  intros C run.
  apply (missing_flags_no_error_no_creation Z C demo_token 0%nat (one_account 5000)
           (status_of JsUndefined (JsBool false) 100)
           (mkState 5000 [EvVerifyDailyTask] {[ 0%nat := initial_stats 0 ]})
           run.1 run.2).
  - reflexivity.
  - reflexivity.
  - reflexivity.
Defined.

(** C3 as stated fails: with a status response whose agent flag is
    undefined, the [errors] counter is 0 before and 0 after, not 1. *)
Lemma missing_flags_errors_not_incremented :
  let C := scripted (status_of JsUndefined (JsBool false) 100) good_agent good_login in
  let st := one_account 5000 in
  let st' := (executeDailyTasks C demo_token 0 st).2 in
  fetch_status C demo_token st
  = (Return (status_of JsUndefined (JsBool false) 100),
     mkState 5000 [EvVerifyDailyTask] {[ 0%nat := initial_stats 0 ]})
  ∧ lacks_flags (status_of JsUndefined (JsBool false) 100) = true
  ∧ errors <$> accountsStats st !! 0%nat = Some 0
  ∧ errors <$> accountsStats st' !! 0%nat = Some 0
  ∧ errors <$> accountsStats st' !! 0%nat
    ≠ (λ s, errors s + 1) <$> accountsStats st !! 0%nat.
Proof. repeat split; try reflexivity. vm_compute. discriminate. Qed.

(** C4. When the status response lacks the completion flags,
    executeDailyTasks returns [false] and the whole statistics registry is
    what it was: no field of the account's record changes, [lastRun] and
    [cooldownSeconds] included. *)
Theorem missing_flags_no_mutation :
  ∀ (W : Type) (C : Collab W) tokenData i st response st1 r st',
    fetch_status C tokenData st = (Return response, st1) →
    lacks_flags response = true →
    executeDailyTasks C tokenData i st = (r, st') →
    r = Return false
    ∧ accountsStats st' = accountsStats st
    ∧ (∀ s, accountsStats st !! i = Some s →
            ∃ s', accountsStats st' !! i = Some s'
                  ∧ s' = s ∧ lastRun s' = lastRun s
                  ∧ cooldownSeconds s' = cooldownSeconds s).
Proof.
  intros W C tokenData i st response st1 r st' Hfetch Hlack Hrun.
  destruct (executeDailyTasks_lacking_flags C tokenData i st response st1 Hfetch Hlack)
    as (Hrun' & Hstats & _).
  rewrite Hrun' in Hrun. injection Hrun as <- <-.
  split; [done|]. split; [done|].
  intros s Hs. exists s. by rewrite Hstats.
Qed.

Lemma missing_flags_no_mutation_witness :
  let C := scripted (Some (mkResponse None)) good_agent good_login in
  let run := executeDailyTasks C demo_token 0 (one_account 5000) in
  run.1 = Return false
  ∧ accountsStats run.2 = accountsStats (one_account 5000)
  ∧ (∀ s, accountsStats (one_account 5000) !! 0%nat = Some s →
          ∃ s', accountsStats run.2 !! 0%nat = Some s'
                ∧ s' = s ∧ lastRun s' = lastRun s
                ∧ cooldownSeconds s' = cooldownSeconds s).
Proof.
  intros C run.
  apply (missing_flags_no_mutation Z C demo_token 0%nat (one_account 5000)
           (Some (mkResponse None))
           (mkState 5000 [EvVerifyDailyTask] {[ 0%nat := initial_stats 0 ]})
           run.1 run.2).
  - reflexivity.
  - reflexivity.
  - reflexivity.
Defined.

(** Generated agent content that fails validation ends createAgent after
    the generation: [false], the statistics untouched, nothing submitted. *)
Lemma createAgent_invalid {W} (C : Collab W) session_token i st text w' agent :
  generateAIResponse C "create agent" "createAgent" (world st) = (Return text, w') →
  JSON_parse C text = Some agent →
  invalid_agent agent = true →
  createAgent C session_token i st
  = (Return false,
     mkState w' (trace st ++ [EvHeader CreatingAgent i; EvGenerateAI "createAgent"])
             (accountsStats st)).
Proof.
  intros Hgen Hparse Hinvalid.
  unfold createAgent, bind, try_catch, header, call. simpl.
  rewrite Hgen, Hparse. unfold invalid_agent in Hinvalid. cbv zeta in Hinvalid.
  rewrite Hinvalid. unfold ret. by rewrite <- app_assoc.
Qed.

(** The end of the task block only writes statistics: no event. *)
Lemma perform_tasks_tail_trace {W} (C : Collab W) i c (h : JsError → M W bool) st r st' :
  (∀ e s r' s', h e s = (r', s') → trace s' = trace s) →
  try_catch (bind (date_now C) (λ stamp,
               bind (update_stats i (set_lastRun stamp)) (λ _,
               bind (update_stats i (set_cooldownSeconds c)) (λ _, ret true))))
            h st = (r, st') →
  trace st' = trace st.
Proof.
  intros Hh. unfold try_catch, bind, date_now, update_stats, ret.
  destruct (accountsStats st !! i) as [s|] eqn:E; simpl.
  - rewrite lookup_insert_eq. by intros [= <- <-].
  - intros Hrun. by apply Hh in Hrun.
Qed.

Lemma count_error_trace {W} i (s : State W) r' s' :
  bind (update_stats i incr_errors) (λ _, ret false) s = (r', s') → trace s' = trace s.
Proof.
  unfold bind, update_stats, ret.
  destruct (accountsStats s !! i); by intros [= <- <-].
Qed.

(** C5, as the code has it.  With the agent flag not set and generated
    agent content that lacks a non-empty name or description, createAgent
    returns [false] right after the generation: nothing is submitted to the
    platform or the chain and the statistics, the error counter included,
    are untouched.  Only the agent step is skipped: the same invocation of
    executeDailyTasks goes on to the request task whenever its flag is not
    set, emits nothing but request-flow events from then on, and returns
    [true] for a configured account. *)
Theorem invalid_agent_skips_agent_step_only :
  ∀ (W : Type) (C : Collab W) tokenData i st response status st1 text w' agent,
    fetch_status C tokenData st = (Return (Some response), st1) →
    data response = Some status →
    lacks_flags (Some response) = false →
    truthy (is_create_agent status) = false →
    generateAIResponse C "create agent" "createAgent" (world st1) = (Return text, w') →
    JSON_parse C text = Some agent →
    invalid_agent agent = true →
    let st_a :=
      mkState w' (trace st1 ++ [EvHeader CreatingAgent i; EvGenerateAI "createAgent"])
              (accountsStats st) in
    createAgent C (token tokenData) i st1 = (Return false, st_a)
    ∧ ∀ r st', executeDailyTasks C tokenData i st = (r, st') →
        (is_Some (accountsStats st !! i) → r = Return true)
        ∧ ∃ evs, trace st' = trace st_a ++ evs
                 ∧ Forall (λ e, e = EvHeader CreatingRequest i ∨ request_flow_event e) evs
                 ∧ (truthy (is_create_request status) = false →
                    EvHeader CreatingRequest i ∈ evs).
Proof.
  intros W C tokenData i st response status st1 text w' agent
         Hfetch Hdata Hflags Hagent Hgen Hparse Hinvalid st_a.
  unfold lacks_flags in Hflags. rewrite Hdata in Hflags.
  apply orb_false_iff in Hflags as [Hfa Hfr].
  pose proof (fetch_status_spec C _ _ _ _ Hfetch) as [Hstats _].
  assert (createAgent C (token tokenData) i st1 = (Return false, st_a)) as Hca.
  { subst st_a. rewrite <- Hstats. by eapply createAgent_invalid. }
  split; [exact Hca|].
  intros r st'.
  rewrite (executeDailyTasks_validated C tokenData i st response status st1)
    by done.
  intros Hrun. split.
  - intros [s Hs]. rewrite <- Hstats in Hs.
    destruct (perform_tasks_cooldown C (token tokenData) i status st1 s Hs)
      as (st2 & s2 & Hpt & _).
    unfold try_catch in Hrun. rewrite Hpt in Hrun. by injection Hrun as <- _.
  - revert Hrun. unfold try_catch at 1, perform_tasks, bind at 1, now_seconds at 1.
    unfold bind at 1. rewrite Hagent. change (negb false) with true.
    cbv iota. rewrite Hca. cbv iota. unfold bind at 1.
    destruct (truthy (is_create_request status)) eqn:Hreq;
      [change (negb true) with false|change (negb false) with true]; cbv iota.
    + unfold ret at 1. cbv zeta. intros Hrun.
      exists []. rewrite app_nil_r. split; [|split; [constructor|done]].
      eapply (perform_tasks_tail_trace C i _ _ st_a r st').
      * intros e s r' s'. by apply count_error_trace.
      * unfold try_catch. exact Hrun.
    + destruct (createRequest C (token tokenData) i st_a) as [[b|e] s2] eqn:Hcr;
        apply createRequest_spec in Hcr as (evs & Ht & Hevs & _).
      * cbv zeta. intros Hrun.
        exists (EvHeader CreatingRequest i :: evs). split; [|split].
        -- rewrite <- Ht.
           eapply (perform_tasks_tail_trace C i _ _ s2 r st').
           ++ intros e s r' s'. by apply count_error_trace.
           ++ unfold try_catch. exact Hrun.
        -- constructor; [by left|]. eapply Forall_impl; [exact Hevs|]. by right.
        -- intros _. by left.
      * intros Hrun. apply count_error_trace in Hrun.
        exists (EvHeader CreatingRequest i :: evs). rewrite Hrun, Ht.
        split; [done|]. split; [|intros _; by left].
        constructor; [by left|]. eapply Forall_impl; [exact Hevs|]. by right.
Qed.

Lemma invalid_agent_skips_agent_step_only_witness :
  let C := scripted (status_of (JsBool false) (JsBool false) 100)
                    nameless_agent good_login in
  let st1 := mkState 5000 [EvVerifyDailyTask] {[ 0%nat := initial_stats 0 ]} in
  let st_a :=
    mkState 5000 (trace st1 ++ [EvHeader CreatingAgent 0; EvGenerateAI "createAgent"])
            (accountsStats (one_account 5000)) in
  invalid_agent nameless_agent = true
  ∧ createAgent C (token demo_token) 0 st1 = (Return false, st_a)
  ∧ ∀ r st', executeDailyTasks C demo_token 0 (one_account 5000) = (r, st') →
      (is_Some (accountsStats (one_account 5000) !! 0%nat) → r = Return true)
      ∧ ∃ evs, trace st' = trace st_a ++ evs
               ∧ Forall (λ e, e = EvHeader CreatingRequest 0 ∨ request_flow_event e) evs
               ∧ (truthy (JsBool false) = false → EvHeader CreatingRequest 0 ∈ evs).
Proof.
  intros C st1 st_a. split; [reflexivity|].
  apply (invalid_agent_skips_agent_step_only Z C demo_token 0%nat (one_account 5000)
           (mkResponse (Some (mkDailyTaskData (JsBool false) (JsBool false) 100)))
           (mkDailyTaskData (JsBool false) (JsBool false) 100)
           st1 "agent"%string 5000 nameless_agent).
  - reflexivity.
  - reflexivity.
  - reflexivity.
  - reflexivity.
  - reflexivity.
  - reflexivity.
  - reflexivity.
Defined.

(** C5 as stated fails: with the agent flag not set and generated content
    whose name is empty, the invocation ends with the [errors] counter at 0,
    as before, while the request was created and counted. *)
Lemma invalid_agent_errors_not_incremented :
  let C := scripted (status_of (JsBool false) (JsBool false) 100)
                    nameless_agent good_login in
  let st := one_account 5000 in
  let run := executeDailyTasks C demo_token 0 st in
  truthy (JsBool false) = false
  ∧ JSON_parse C "agent" = Some nameless_agent
  ∧ invalid_agent nameless_agent = true
  ∧ run.1 = Return true
  ∧ errors <$> accountsStats st !! 0%nat = Some 0
  ∧ errors <$> accountsStats run.2 !! 0%nat = Some 0
  ∧ requests <$> accountsStats run.2 !! 0%nat = Some 1
  ∧ errors <$> accountsStats run.2 !! 0%nat
    ≠ (λ s, errors s + 1) <$> accountsStats st !! 0%nat.
Proof. repeat split; try reflexivity. vm_compute. discriminate. Qed.

(** C6. When both completion flags are set, executeDailyTasks issues no
    generation, creation or chain call: it emits nothing after the status
    query, returns [true], and the account's [agents], [requests] and [txs]
    are what they were. *)
Theorem completed_status_is_idle :
  ∀ (W : Type) (C : Collab W) tokenData i st response status st1 s,
    fetch_status C tokenData st = (Return (Some response), st1) →
    data response = Some status →
    truthy (is_create_agent status) = true →
    truthy (is_create_request status) = true →
    accountsStats st !! i = Some s →
    ∃ st' s',
      executeDailyTasks C tokenData i st = (Return true, st')
      ∧ trace st' = trace st1
      ∧ (∃ evs, trace st' = trace st ++ evs ∧ Forall (λ e, ¬ creation_event e) evs)
      ∧ accountsStats st' !! i = Some s'
      ∧ agents s' = agents s ∧ requests s' = requests s ∧ txs s' = txs s.
Proof.
  intros W C tokenData i st response status st1 s Hfetch Hdata Ha Hr Hs.
  assert (is_undefined (is_create_agent status) = false) as Hua
      by (by destruct (is_create_agent status)).
  assert (is_undefined (is_create_request status) = false) as Hur
      by (by destruct (is_create_request status)).
  rewrite (executeDailyTasks_validated C tokenData i st response status st1)
    by done.
  pose proof (fetch_status_spec C _ _ _ _ Hfetch) as (Hstats & evs & Ht & Hevs).
  rewrite <- Hstats in Hs.
  unfold try_catch, perform_tasks, bind, now_seconds, date_now, update_stats, ret.
  rewrite Ha, Hr. simpl. rewrite Hs. simpl. rewrite lookup_insert_eq.
  eexists _, _. split; [reflexivity|]. simpl. split; [done|]. split.
  - exists evs. split; [done|].
    eapply Forall_impl; [exact Hevs|apply status_query_not_creation].
  - rewrite lookup_insert_eq. split; [reflexivity|]. done.
Qed.

Lemma completed_status_is_idle_witness :
  let C := scripted (status_of (JsBool true) (JsBool true) 100) good_agent good_login in
  let st1 := mkState 5000 [EvVerifyDailyTask] {[ 0%nat := initial_stats 0 ]} in
  ∃ st' s',
    executeDailyTasks C demo_token 0 (one_account 5000) = (Return true, st')
    ∧ trace st' = trace st1
    ∧ (∃ evs, trace st' = trace (one_account 5000) ++ evs
              ∧ Forall (λ e, ¬ creation_event e) evs)
    ∧ accountsStats st' !! 0%nat = Some s'
    ∧ agents s' = agents (initial_stats 0)
    ∧ requests s' = requests (initial_stats 0)
    ∧ txs s' = txs (initial_stats 0).
Proof.
  intros C st1.
  apply (completed_status_is_idle Z C demo_token 0%nat (one_account 5000)
           (mkResponse (Some (mkDailyTaskData (JsBool true) (JsBool true) 100)))
           (mkDailyTaskData (JsBool true) (JsBool true) 100)
           st1 (initial_stats 0)).
  - reflexivity.
  - reflexivity.
  - reflexivity.
  - reflexivity.
  - reflexivity.
Defined.




(** ** Sessions *)

(** C7. checkTokenValid only compares: it returns [false] exactly when
    [now >= token_expire_time] and changes nothing.  Hence processAccount
    with a carried token that expires strictly later emits no event of the
    authentication handshake; with a token that has expired it emits exactly
    one authentication header, then handshake calls only, and every event of
    the task workflow comes after them. *)
Theorem session_validity_and_reuse :
  ∀ (W : Type) (C : Collab W),
    (∀ expire st,
        ∃ b, checkTokenValid C expire st = (Return b, st)
             ∧ (b = false ↔ Date_now C (world st) / 1000 >= expire))
    ∧ (∀ private_key i current st r st',
          Date_now C (world st) / 1000 < token_expire_time current →
          processAccount C private_key i (Some current) st = (r, st') →
          ∃ evs, trace st' = trace st ++ evs ∧ Forall task_event evs)
    ∧ (∀ private_key i current st r st',
          token_expire_time current <= Date_now C (world st) / 1000 →
          processAccount C private_key i (Some current) st = (r, st') →
          ∃ handshake tasks,
            trace st' = trace st ++ EvHeader Authentication i :: handshake ++ tasks
            ∧ Forall auth_call handshake
            ∧ Forall task_event tasks).
Proof.
  intros W C. repeat apply conj.
  - intros expire st. eexists. split; [apply checkTokenValid_run|].
    destruct (Z.leb_spec expire (Date_now C (world st) / 1000)); simpl; split;
      try done; lia.
  - intros private_key i current st r st' Hlt.
    rewrite processAccount_valid by (simpl; by apply Z.leb_gt).
    intros Hrun. by apply guarded_tasks_preserves in Hrun as [_ Hemits].
  - intros private_key i current st r st' Hle Hrun.
    assert (needs_auth (Some current) (Date_now C (world st) / 1000) = true)
      as Hneed by (simpl; by apply Z.leb_le).
    destruct (getToken C private_key i st) as [ra st1] eqn:Hauth.
    destruct (getToken_spec C _ _ _ _ _ Hauth) as ((t & ->) & _ & hs & Ht & Hhs).
    destruct t as [tokenData'|].
    + rewrite (processAccount_auth_ok C _ _ _ _ _ _ Hneed Hauth) in Hrun.
      apply guarded_tasks_preserves in Hrun as [_ (tasks & Ht' & Htasks)].
      exists hs, tasks. rewrite Ht', Ht, <- app_assoc. done.
    + rewrite (processAccount_auth_failed C _ _ _ _ _ Hneed Hauth) in Hrun.
      injection Hrun as <- <-. exists hs, []. by rewrite app_nil_r.
Qed.

Lemma session_validity_and_reuse_witness :
  let C := scripted (status_of (JsBool true) (JsBool true) 100) good_agent good_login in
  let run := processAccount C "0xkey0123456" 0 (Some demo_token) (one_account 5000) in
  5000 / 1000 < token_expire_time demo_token
  ∧ ∃ evs, trace run.2 = trace (one_account 5000) ++ evs ∧ Forall task_event evs.
Proof.
  intros C run. split; [reflexivity|].
  apply (proj1 (proj2 (session_validity_and_reuse Z C))
               "0xkey0123456"%string 0%nat demo_token (one_account 5000) run.1 run.2).
  - reflexivity.
  - reflexivity.
Defined.

(** The expired case on a run: one authentication header first, the
    handshake, then the status query and the profile refresh. *)
Example expired_token_reauthenticates_once :
  trace (processAccount
           (scripted (status_of (JsBool true) (JsBool true) 100) good_agent good_login)
           "0xkey0123456" 0 (Some demo_token) (one_account 2000000)).2
  = [EvHeader Authentication 0; EvGetNonce; EvSign; EvLogin; EvSetInviter;
     EvVerifyDailyTask; EvGetUserData].
Proof. reflexivity. Qed.

(** The ways the handshake ends without a token: the nonce request throws
    or brings no data, or the login brings no token.  Each yields [null]. *)
Lemma getToken_no_token_cases {W} (C : Collab W) private_key i st address :
  private_key ≠ ""%string →
  wallet_address C private_key = Return address →
  (∀ e w1, getNonce C address (world st) = (Throw e, w1) →
           ∃ st1, getToken C private_key i st = (Return None, st1))
  ∧ (∀ message w1,
        getNonce C address (world st) = (Return message, w1) →
        message = None ∨ (∃ m, message = Some m ∧ data m = None) →
        ∃ st1, getToken C private_key i st = (Return None, st1))
  ∧ (∀ m d w1 signature w2 loginResponse w3,
        getNonce C address (world st) = (Return (Some m), w1) →
        data m = Some d →
        sign_with_private_key C private_key (nonce d) w1 = (Return signature, w2) →
        login C address signature (nonce d) w2 = (Return loginResponse, w3) →
        loginResponse = None
        ∨ (∃ l, loginResponse = Some l
                ∧ (data l = None
                   ∨ ∃ ld, data l = Some ld ∧ truthy (LoginData.token ld) = false)) →
        ∃ st1, getToken C private_key i st = (Return None, st1)).
Proof.
  intros Hkey Hwallet.
  assert (String.eqb private_key "" = false) as Hne by (by apply String.eqb_neq).
  repeat apply conj.
  - intros e w1 Hnonce.
    unfold getToken, bind, try_catch, header, call, ret, throw. simpl.
    rewrite Hne, Hwallet. simpl. rewrite Hnonce. by eexists.
  - intros message w1 Hnonce Hmissing.
    unfold getToken, bind, try_catch, header, call, ret, throw. simpl.
    rewrite Hne, Hwallet. simpl. rewrite Hnonce.
    destruct Hmissing as [->|(m & -> & Hdata)]; [by eexists|].
    rewrite Hdata. by eexists.
  - intros m d w1 signature w2 loginResponse w3 Hnonce Hdata Hsign Hlogin Hmissing.
    unfold getToken, bind, try_catch, header, call, ret, throw. simpl.
    rewrite Hne, Hwallet. simpl. rewrite Hnonce, Hdata. simpl.
    rewrite Hsign. simpl. rewrite Hlogin.
    destruct Hmissing as [->|(l & -> & [Hl|(ld & Hl & Htoken)])]; [by eexists| |].
    + rewrite Hl. by eexists.
    + rewrite Hl, Htoken. by eexists.
Qed.

(** C9. getToken swallows every error and never touches the statistics.
    When it yields no token, for an account without a session or with an
    expired one, processAccount returns [null] in the state getToken left:
    the whole statistics registry is unchanged, [lastRun] included; the
    loop of main() stores [null] in the account's slot and goes on with the
    next key after the inter-account pause.  A nonce request that throws or
    brings no data and a login that brings no token all yield no token. *)
Theorem authentication_failure_frame :
  ∀ (W : Type) (C : Collab W) private_key i,
    (∀ st r st',
        getToken C private_key i st = (r, st') →
        (∃ t, r = Return t) ∧ accountsStats st' = accountsStats st)
    ∧ (∀ tokenData st st1,
          needs_auth tokenData (Date_now C (world st) / 1000) = true →
          getToken C private_key i st = (Return None, st1) →
          processAccount C private_key i tokenData st = (Return None, st1)
          ∧ accountsStats st1 = accountsStats st
          ∧ (∀ s, accountsStats st !! i = Some s →
                  ∃ s', accountsStats st1 !! i = Some s'
                        ∧ s' = s ∧ lastRun s' = lastRun s)
          ∧ ∀ n rest ms,
              prog ms = st →
              default None (tokenDataArray ms !! i) = tokenData →
              accounts_loop C n (private_key :: rest) i ms
              = accounts_loop C n rest (S i)
                  (mkMain (if Nat.ltb i (n - 1) then sleep C 3000 st1 else st1)
                          (<[i := None]> (tokenDataArray ms))
                          (cycleCount ms)))
    ∧ (∀ st address,
          private_key ≠ ""%string →
          wallet_address C private_key = Return address →
          (∀ e w1, getNonce C address (world st) = (Throw e, w1) →
                   ∃ st1, getToken C private_key i st = (Return None, st1))
          ∧ (∀ message w1,
                getNonce C address (world st) = (Return message, w1) →
                message = None ∨ (∃ m, message = Some m ∧ data m = None) →
                ∃ st1, getToken C private_key i st = (Return None, st1))
          ∧ (∀ m d w1 signature w2 loginResponse w3,
                getNonce C address (world st) = (Return (Some m), w1) →
                data m = Some d →
                sign_with_private_key C private_key (nonce d) w1
                = (Return signature, w2) →
                login C address signature (nonce d) w2 = (Return loginResponse, w3) →
                loginResponse = None
                ∨ (∃ l, loginResponse = Some l
                        ∧ (data l = None
                           ∨ ∃ ld, data l = Some ld
                                   ∧ truthy (LoginData.token ld) = false)) →
                ∃ st1, getToken C private_key i st = (Return None, st1))).
Proof.
  intros W C private_key i. split; [|split].
  - intros st r st' Hauth.
    by destruct (getToken_spec C _ _ _ _ _ Hauth) as (Hr & Hs & _).
  - intros tokenData st st1 Hneed Hauth.
    pose proof (processAccount_auth_failed C _ _ _ _ _ Hneed Hauth) as Hrun.
    destruct (getToken_spec C _ _ _ _ _ Hauth) as (_ & Hs & _).
    split; [done|]. split; [done|]. split.
    + intros s Hi. exists s. by rewrite Hs.
    + intros n rest ms Hprog Hslot. simpl. rewrite Hprog, Hslot, Hrun. reflexivity.
  - intros st address. apply getToken_no_token_cases.
Qed.

Lemma authentication_failure_frame_witness :
  let C := scripted (status_of (JsBool false) (JsBool false) 100)
                    good_agent failed_login in
  let st1 := mkState 5000 [EvHeader Authentication 0; EvGetNonce; EvSign; EvLogin]
                     {[ 0%nat := initial_stats 0 ]} in
  needs_auth None (5000 / 1000) = true
  ∧ getToken C "0xkey0123456" 0 (one_account 5000) = (Return None, st1)
  ∧ processAccount C "0xkey0123456" 0 None (one_account 5000) = (Return None, st1)
  ∧ accountsStats st1 = accountsStats (one_account 5000).
Proof.
  intros C st1. split; [reflexivity|]. split; [reflexivity|].
  destruct (proj1 (proj2 (authentication_failure_frame Z C "0xkey0123456"%string 0%nat))
                  None (one_account 5000) st1)
    as (Hrun & Hstats & _).
  - reflexivity.
  - reflexivity.
  - split; [exact Hrun|exact Hstats].
Defined.

(** * Further properties of main.js *)

(** ** The retry policy for any number of attempts *)

Section RetrySchedule.
Context {St E A : Type}.
Variable sleep : Z -> St -> St.
Variable undefined : A.
Variable fn : St -> Outcome E A * St.

(** The loop entered at index [i] with [remaining] iterations left, where
    [i + remaining = retries]: it runs the operation [k] times, waits after
    each run but the last, doubling from [delay * 2 ^ i], and throws only
    from its last iteration. *)
Lemma probe_schedule retries delay :
  ∀ remaining i p,
    (i + remaining = retries)%nat →
    ∃ k : nat,
      runs (retry_loop (probe_sleep sleep) undefined (probe_fn fn)
                       retries delay remaining i p).2 = (runs p + k)%nat
      ∧ (k ≤ remaining)%nat
      ∧ (0 < remaining → 0 < k)%nat
      ∧ waits (retry_loop (probe_sleep sleep) undefined (probe_fn fn)
                          retries delay remaining i p).2
        = waits p ++ ((λ j, delay * 2 ^ Z.of_nat j) <$> seq i (k - 1))
      ∧ (∀ e, (retry_loop (probe_sleep sleep) undefined (probe_fn fn)
                          retries delay remaining i p).1 = Throw e →
              k = remaining).
Proof.
  induction remaining as [|r IH]; intros i p Hsum.
  - exists 0%nat. simpl. rewrite app_nil_r. repeat split; try lia; done.
  - rewrite retry_loop_unfold.
    destruct (probe_fn fn p) as [[a|e] p1] eqn:Hp;
      unfold probe_fn in Hp; destruct (fn (probed p)) as [r0 s1];
      injection Hp as -> <-.
    + exists 1%nat. simpl. rewrite app_nil_r. repeat split; try lia; done.
    + destruct (Nat.eqb_spec i (retries - 1)) as [Hlast|Hmore].
      * exists 1%nat. simpl. rewrite app_nil_r. repeat split; try lia; done.
      * destruct (IH (S i)
                     (probe_sleep sleep (delay * 2 ^ Z.of_nat i)
                                  (mkProbe s1 (S (runs p)) (waits p))))
          as (k & Hruns & Hk & Hpos & Hwaits & Hthrow); [lia|].
        exists (S k). rewrite Hruns, Hwaits. simpl.
        assert (0 < k)%nat as Hk0 by (apply Hpos; lia).
        repeat split; try lia.
        -- rewrite <- app_assoc. simpl. f_equal.
           replace (k - 0)%nat with (S (k - 1)) by lia. done.
        -- intros e' He'. f_equal. by eapply Hthrow.
Qed.
End RetrySchedule.

(** X1. For any number of attempts and any delay, retryWithBackoff runs
    the operation at most [retries] times; the waits between the runs are
    [delay], [2 delay], [4 delay], ... one fewer than the runs; an error
    reaches the caller only after all [retries] runs; with [retries = 0] the
    operation never runs and the result is [undefined]. *)
Theorem retryWithBackoff_schedule :
  ∀ (St E A : Type) (sleep : Z → St → St) (undefined : A)
    (fn : St → Outcome E A * St) (retries : nat) (delay : Z) (s : St),
    let run := retryWithBackoff (probe_sleep sleep) undefined (probe_fn fn)
                                retries delay (mkProbe s 0 []) in
    retryWithBackoff sleep undefined fn retries delay s = (run.1, probed run.2)
    ∧ (runs run.2 ≤ retries)%nat
    ∧ waits run.2 = backoff_schedule delay (runs run.2 - 1)
    ∧ (∀ e, run.1 = Throw e → runs run.2 = retries)
    ∧ (retries = 0%nat → run = (Return undefined, mkProbe s 0 [])).
Proof.
  intros St E A sleep undefined fn retries delay s run.
  destruct (probe_schedule sleep undefined fn retries delay retries 0 (mkProbe s 0 []))
    as (k & Hruns & Hk & _ & Hwaits & Hthrow); [lia|].
  change (retry_loop (probe_sleep sleep) undefined (probe_fn fn) retries delay
                     retries 0 (mkProbe s 0 [])) with run in Hruns, Hwaits, Hthrow.
  simpl in Hruns, Hwaits.
  repeat apply conj.
  - subst run. unfold retryWithBackoff.
    rewrite (probe_erasure sleep undefined fn _ _ _ _ (mkProbe s 0 [])).
    by destruct (retry_loop _ _ _ _ _ _ _ _).
  - lia.
  - rewrite Hwaits, Hruns. done.
  - intros e He. rewrite Hruns. by eapply Hthrow.
  - intros ->. done.
Qed.

(** Five attempts of an operation that keeps failing, delay 100. *)
Lemma retryWithBackoff_schedule_witness :
  let run := retryWithBackoff (probe_sleep (fun _ n => n)) false (probe_fn (flaky 9))
                              5 100 (mkProbe 0%nat 0%nat []) in
  run.1 = Throw 4%nat
  ∧ runs run.2 = 5%nat
  ∧ waits run.2 = [100; 200; 400; 800].
Proof.
  intros run.
  pose proof (retryWithBackoff_schedule nat nat bool (fun _ n => n) false (flaky 9)
                                        5 100 0%nat) as (_ & _ & Hwaits & Hthrow & _).
  split; [reflexivity|]. split.
  - apply (Hthrow 4%nat). reflexivity.
  - exact Hwaits.
Defined.

(** ** parsePrivateKeys *)

Lemma trim_start_length s : (length (trim_start s) ≤ length s)%nat.
Proof.
  induction s as [|c s IH]; simpl; [lia|].
  destruct (is_white_space c); simpl; lia.
Qed.

Lemma trim_start_length_eq s : length (trim_start s) = length s → trim_start s = s.
Proof.
  destruct s as [|c s]; simpl; [done|].
  destruct (is_white_space c); [|done].
  intros H. pose proof (trim_start_length s). lia.
Qed.

Lemma trim_start_idemp s : trim_start (trim_start s) = trim_start s.
Proof.
  induction s as [|c s IH]; simpl; [done|].
  destruct (is_white_space c) eqn:E; [done|]. simpl. by rewrite E.
Qed.

Lemma trim_start_elem s c : c ∈ trim_start s → c ∈ s.
Proof.
  induction s as [|d s IH]; simpl; [done|].
  destruct (is_white_space d); [|done]. intros H. right. by apply IH.
Qed.

Lemma trim_start_app_keep a b : a ≠ [] → trim_start a = a → trim_start (a ++ b) = a ++ b.
Proof.
  destruct a as [|c a]; [done|]. intros _. simpl.
  destruct (is_white_space c); [|done].
  intros H. pose proof (trim_start_length a) as Hl. rewrite H in Hl. simpl in Hl. lia.
Qed.

(** Trimming the end of a string that has no white space in front leaves
    none in front. *)
Lemma trim_start_trim_end s : trim_start s = s → trim_start (trim_end s) = trim_end s.
Proof.
  unfold trim_end. destruct s as [|c s]; [done|]. simpl.
  destruct (is_white_space c) eqn:E.
  { intros H. pose proof (trim_start_length s) as Hl. rewrite H in Hl. simpl in Hl. lia. }
  intros _.
  assert (∀ l, ∃ u, trim_start (l ++ [c]) = u ++ [c]) as Hsnoc.
  { induction l as [|d l [u IH]]; simpl.
    - rewrite E. by exists [].
    - destruct (is_white_space d); [by exists u|]. by exists (d :: l). }
  destruct (Hsnoc (rev s)) as [u ->]. rewrite rev_app_distr. simpl. by rewrite E.
Qed.

Lemma trim_idemp s : trim (trim s) = trim s.
Proof.
  unfold trim. rewrite trim_start_trim_end by apply trim_start_idemp.
  unfold trim_end. by rewrite rev_involutive, trim_start_idemp.
Qed.

Lemma elem_of_rev {X} (l : list X) x : x ∈ rev l ↔ x ∈ l.
Proof. rewrite !list_elem_of_In. symmetry. apply in_rev. Qed.

Lemma trim_elem s c : c ∈ trim s → c ∈ s.
Proof.
  unfold trim, trim_end. rewrite elem_of_rev. intros H.
  apply trim_start_elem in H. rewrite elem_of_rev in H. by apply trim_start_elem.
Qed.

(** A string that [trim] leaves alone has no white space at either end. *)
Lemma trim_fixed s : trim s = s → trim_start s = s ∧ trim_start (rev s) = rev s.
Proof.
  intros H. unfold trim, trim_end in H.
  assert (length (trim_start (rev (trim_start s))) = length s) as Hlen
      by (rewrite <- H at 2; by rewrite length_rev).
  pose proof (trim_start_length (rev (trim_start s))) as H1.
  pose proof (trim_start_length s) as H2. rewrite length_rev in H1.
  assert (trim_start s = s) as Hs by (apply trim_start_length_eq; lia).
  split; [done|]. rewrite Hs in Hlen.
  apply trim_start_length_eq. by rewrite length_rev.
Qed.

Lemma startsWith_app p k : startsWith (p ++ k) p = true.
Proof.
  induction p as [|c p IH]; simpl; [by destruct k|]. rewrite Ascii.eqb_refl. exact IH.
Qed.

Lemma replace_first_prefix p k : p ≠ [] → replace_first (p ++ k) p = k.
Proof.
  intros Hp. destruct p as [|c p]; [done|].
  change (replace_first ((c :: p) ++ k) (c :: p))
    with (if startsWith ((c :: p) ++ k) (c :: p)
          then drop (length (c :: p)) ((c :: p) ++ k)
          else c :: replace_first (p ++ k) (c :: p)).
  rewrite startsWith_app. by rewrite drop_app_length.
Qed.

Lemma replace_first_elem s p c : c ∈ replace_first s p → c ∈ s.
Proof.
  induction s as [|d s IH]; [done|].
  change (replace_first (d :: s) p)
    with (if startsWith (d :: s) p then drop (length p) (d :: s)
          else d :: replace_first s p).
  destruct (startsWith (d :: s) p).
  - intros H. eapply list_elem_of_lookup in H as [n Hn].
    rewrite lookup_drop in Hn. by eapply list_elem_of_lookup_2.
  - intros [->|H]%elem_of_cons; [by left|]. right. by apply IH.
Qed.

Lemma split_lines_nonempty s : split_lines s ≠ [].
Proof.
  destruct s as [|c s]; simpl; [done|].
  destruct (Ascii.eqb c LF); [done|]. by destruct (split_lines s).
Qed.

Lemma split_lines_no_LF s line : line ∈ split_lines s → LF ∉ line.
Proof.
  revert line. induction s as [|c s IH]; intros line; simpl.
  - intros ->%list_elem_of_singleton. apply not_elem_of_nil.
  - destruct (Ascii.eqb_spec c LF) as [->|Hc].
    + intros [->|H]%elem_of_cons; [apply not_elem_of_nil|by apply IH].
    + destruct (split_lines s) as [|l ls] eqn:E; [by destruct (split_lines_nonempty s)|].
      intros [->|H]%elem_of_cons.
      * intros [?|?]%elem_of_cons; [done|]. apply (IH l); [by left|done].
      * apply IH. by right.
Qed.

Lemma split_lines_app_LF a b :
  split_lines (a ++ LF :: b) = split_lines a ++ split_lines b.
Proof.
  induction a as [|c a IH]; simpl; [done|].
  destruct (Ascii.eqb c LF); [by rewrite IH|].
  rewrite IH. destruct (split_lines a) as [|l ls] eqn:E; [|done].
  by destruct (split_lines_nonempty a).
Qed.

Lemma split_lines_single l : LF ∉ l → split_lines l = [l].
Proof.
  induction l as [|c l IH]; simpl; [done|].
  intros H. apply not_elem_of_cons in H as [Hc Hl].
  destruct (Ascii.eqb_spec c LF) as [->|_]; [done|]. by rewrite IH.
Qed.

Lemma key_of_line_sound line key :
  LF ∉ line → key_of_line line = Some key → well_formed_key key.
Proof.
  unfold key_of_line. intros Hline.
  destruct (startsWith (trim line) PRIVATE_KEY_prefix); [|done].
  set (k := trim (replace_first (trim line) PRIVATE_KEY_prefix)).
  destruct (negb (Nat.eqb (length k) 0)); [|done]. simpl.
  destruct (startsWith k hex_prefix) eqn:Hhex; [|done]. simpl.
  destruct (Nat.ltb_spec 10 (length k)) as [Hlen|]; [|done].
  intros [= <-]. repeat split; [done|done|apply trim_idemp|].
  intros Hin. apply Hline.
  by apply trim_elem, replace_first_elem, trim_elem in Hin.
Qed.

Lemma key_of_line_env key :
  well_formed_key key → key_of_line (PRIVATE_KEY_prefix ++ key) = Some key.
Proof.
  intros (Hhex & Hlen & Htrim & _).
  destruct (trim_fixed key Htrim) as [Hstart Hend].
  assert (trim (PRIVATE_KEY_prefix ++ key) = PRIVATE_KEY_prefix ++ key) as Hline.
  { unfold trim. change (trim_start (PRIVATE_KEY_prefix ++ key))
      with (PRIVATE_KEY_prefix ++ key).
    unfold trim_end. rewrite rev_app_distr.
    rewrite trim_start_app_keep; [by rewrite <- rev_app_distr, rev_involutive| |done].
    destruct key; [simpl in Hlen; lia|]. simpl. by destruct (rev key). }
  unfold key_of_line. rewrite Hline, startsWith_app.
  rewrite replace_first_prefix by done. rewrite Htrim, Hhex.
  destruct (Nat.ltb_spec 10 (length key)); [|lia].
  by destruct key.
Qed.

Lemma parse_keys_app_LF a b : parse_keys (a ++ LF :: b) = parse_keys a ++ parse_keys b.
Proof. unfold parse_keys. by rewrite split_lines_app_LF, omap_app. Qed.

Lemma PRIVATE_KEY_prefix_no_LF : LF ∉ PRIVATE_KEY_prefix.
Proof. apply (bool_decide_unpack _). by vm_compute. Qed.

Lemma env_of_keys_cons key keys :
  env_of_keys (key :: keys) = (PRIVATE_KEY_prefix ++ key) ++ LF :: env_of_keys keys.
Proof.
  unfold env_of_keys. rewrite fmap_cons. cbn [concat]. unfold env_line at 1.
  by rewrite <- !app_assoc.
Qed.

Lemma parse_keys_env keys :
  Forall well_formed_key keys → parse_keys (env_of_keys keys) = keys.
Proof.
  induction 1 as [|key keys Hkey _ IH]; [done|].
  rewrite env_of_keys_cons, parse_keys_app_LF, IH.
  unfold parse_keys. rewrite split_lines_single.
  - cbn [omap list_omap]. by rewrite key_of_line_env.
  - destruct Hkey as (_ & _ & _ & Hlf). rewrite elem_of_app. intros [Hp|Hk]; [|done].
    by apply PRIVATE_KEY_prefix_no_LF.
Qed.

Lemma list_ascii_of_string_app a b :
  String.list_ascii_of_string (a +:+ b)
  = String.list_ascii_of_string a ++ String.list_ascii_of_string b.
Proof. induction a as [|c a IH]; simpl; [done|]. by rewrite IH. Qed.

(** X2. Every key parsePrivateKeys returns starts with [0x], is longer
    than 10, carries no white space at either end and no line feed; in
    particular it is not the empty string. *)
Theorem parsePrivateKeys_sound :
  ∀ (envContent key : string),
    key ∈ parsePrivateKeys envContent →
    well_formed_key (String.list_ascii_of_string key) ∧ key ≠ ""%string.
Proof.
  intros envContent key Hin. unfold parsePrivateKeys in Hin.
  apply list_elem_of_fmap in Hin as (k & -> & Hk).
  rewrite String.list_ascii_of_string_of_list_ascii.
  unfold parse_keys in Hk. apply list_elem_of_omap in Hk as (line & Hline & Hkey).
  assert (well_formed_key k) as Hwf
      by (eapply key_of_line_sound; [by eapply split_lines_no_LF|done]).
  split; [done|]. destruct Hwf as (_ & Hlen & _).
  destruct k; [simpl in Hlen; lia|done].
Qed.

Lemma parsePrivateKeys_sound_witness :
  "0x1234567890ab"%string ∈ parsePrivateKeys "  PRIVATE_KEY= 0x1234567890ab "
  ∧ well_formed_key (String.list_ascii_of_string "0x1234567890ab")
  ∧ "0x1234567890ab"%string ≠ ""%string.
Proof.
  assert ("0x1234567890ab"%string ∈ parsePrivateKeys "  PRIVATE_KEY= 0x1234567890ab ")
    as Hin by (vm_compute; by left).
  split; [exact Hin|].
  exact (parsePrivateKeys_sound "  PRIVATE_KEY= 0x1234567890ab " "0x1234567890ab" Hin).
Defined.

(** X3. Round trip: a file written in the documented layout, one
    [PRIVATE_KEY=] line per key, is read back as exactly those keys in the
    same order, provided each key starts with [0x], is longer than 10 and
    has no white space at its ends and no line feed. *)
Theorem parsePrivateKeys_round_trip :
  ∀ keys : list (list ascii),
    Forall well_formed_key keys →
    parsePrivateKeys (String.string_of_list_ascii (env_of_keys keys))
    = String.string_of_list_ascii <$> keys.
Proof.
  intros keys Hkeys. unfold parsePrivateKeys.
  by rewrite String.list_ascii_of_string_of_list_ascii, parse_keys_env.
Qed.

Lemma parsePrivateKeys_round_trip_witness :
  let keys := [String.list_ascii_of_string "0x1234567890ab";
               String.list_ascii_of_string "0xabcdefabcdef01"] in
  Forall well_formed_key keys
  ∧ parsePrivateKeys (String.string_of_list_ascii (env_of_keys keys))
    = ["0x1234567890ab"; "0xabcdefabcdef01"]%string.
Proof.
  intros keys.
  assert (Forall well_formed_key keys) as Hkeys.
  { repeat constructor; try reflexivity; try (simpl; lia);
      apply (bool_decide_unpack _); by vm_compute. }
  split; [exact Hkeys|].
  exact (parsePrivateKeys_round_trip keys Hkeys).
Defined.

(** X4. The file is read line by line: the keys of two texts joined by a
    line feed are the keys of the first followed by the keys of the
    second. *)
Theorem parsePrivateKeys_line_by_line :
  ∀ a b : string,
    parsePrivateKeys (a +:+ String LF b) = parsePrivateKeys a ++ parsePrivateKeys b.
Proof.
  intros a b. unfold parsePrivateKeys.
  rewrite list_ascii_of_string_app. cbn [String.list_ascii_of_string].
  by rewrite parse_keys_app_LF, fmap_app.
Qed.

(** ** The handshake, the creation flows and the status query, path by path *)

Section PathFacts.
Context {W : Type}.
Variable C : Collab W.

(** The three ways a retried collaborator call ends: at the first, the
    second or the third attempt, with the waits 5000 and 10000 between. *)
Lemma retry_call_cases {A} ev (f : W → Outcome JsError (option A) * W) st r st' :
  retry C (call ev f) st = (r, st') →
  (∃ a w1, f (world st) = (Return a, w1) ∧ r = Return a
           ∧ st' = mkState w1 (trace st ++ [ev]) (accountsStats st))
  ∨ (∃ e1 w1 a w2,
        f (world st) = (Throw e1, w1)
        ∧ f (timer C 5000 w1) = (Return a, w2) ∧ r = Return a
        ∧ st' = mkState w2 (trace st ++ [ev; EvSleep 5000; ev]) (accountsStats st))
  ∨ (∃ e1 w1 e2 w2 w3,
        f (world st) = (Throw e1, w1)
        ∧ f (timer C 5000 w1) = (Throw e2, w2)
        ∧ f (timer C 10000 w2) = (r, w3)
        ∧ st' = mkState w3 (trace st ++ [ev; EvSleep 5000; ev; EvSleep 10000; ev])
                        (accountsStats st)).
Proof.
  unfold retry, retryWithBackoff, MAX_RETRIES, RETRY_DELAY.
  rewrite !retry_loop_unfold. unfold call, sleep. simpl.
  change (5000 * 2 ^ Z.of_nat 0) with 5000.
  change (5000 * 2 ^ Z.of_nat 1) with 10000.
  destruct (f (world st)) as [[a|e1] w1] eqn:E1.
  { intros H. injection H as <- <-. left. by eexists _, _. }
  cbn [world trace accountsStats].
  destruct (f (timer C 5000 w1)) as [[a|e2] w2] eqn:E2.
  { intros H. injection H as <- <-. right; left. eexists _, _, _, _.
    repeat split; try done. by rewrite <- !app_assoc. }
  cbn [world trace accountsStats].
  destruct (f (timer C 10000 w2)) as [[a|e3] w3] eqn:E3;
    intros H; injection H as <- <-; right; right; eexists _, _, _, _, _;
    (repeat split; try done); by rewrite <- !app_assoc.
Qed.
End PathFacts.

(** X5. getToken returns a session only when the whole handshake went
    through in order: the wallet gave the address, the nonce request gave
    data, the signing and the login returned, the login brought a truthy
    token, and setInviter returned.  The session carries that token, the
    login's expiry and the wallet's address; the trace gained the header
    and the four calls, and the statistics are untouched. *)
Theorem getToken_session_origin :
  ∀ (W : Type) (C : Collab W) private_key i st tokenData st',
    getToken C private_key i st = (Return (Some tokenData), st') →
    private_key ≠ ""%string
    ∧ wallet_address C private_key = Return (address tokenData)
    ∧ truthy (token tokenData) = true
    ∧ trace st'
      = trace st ++ [EvHeader Authentication i; EvGetNonce; EvSign; EvLogin; EvSetInviter]
    ∧ accountsStats st' = accountsStats st
    ∧ ∃ message nonce_data w1 signature w2 loginResponse login_data w3,
        getNonce C (address tokenData) (world st) = (Return (Some message), w1)
        ∧ data message = Some nonce_data
        ∧ sign_with_private_key C private_key (nonce nonce_data) w1
          = (Return signature, w2)
        ∧ login C (address tokenData) signature (nonce nonce_data) w2
          = (Return (Some loginResponse), w3)
        ∧ data loginResponse = Some login_data
        ∧ token tokenData = LoginData.token login_data
        ∧ token_expire_time tokenData = LoginData.token_expire_time login_data
        ∧ setInviter C (token tokenData) w3 = (Return tt, world st').
Proof.
  intros W C private_key i st tokenData st'.
  unfold getToken, bind, try_catch, header, call, ret, throw. simpl.
  intros H. repeat case_match; simplify_eq. simpl.
  match goal with H : String.eqb _ _ = false |- _ => apply String.eqb_neq in H end.
  repeat split; try done.
  - by rewrite <- !app_assoc.
  - match goal with H : setInviter _ _ _ = (Return ?u, _) |- _ => destruct u end.
    eexists _, _, _, _, _, _, _, _. repeat split; eauto.
Qed.

Lemma getToken_session_origin_witness :
  let C := scripted (status_of (JsBool false) (JsBool false) 100) good_agent good_login in
  let run := getToken C "0xkey0123456" 3 (one_account 5000) in
  run.1 = Return (Some demo_token)
  ∧ truthy (token demo_token) = true
  ∧ trace run.2
    = trace (one_account 5000)
      ++ [EvHeader Authentication 3; EvGetNonce; EvSign; EvLogin; EvSetInviter].
Proof.
  intros C run.
  assert (getToken C "0xkey0123456" 3 (one_account 5000) = (Return (Some demo_token), run.2))
    as Hrun by reflexivity.
  destruct (getToken_session_origin Z C _ _ _ _ _ Hrun) as (_ & _ & Htoken & Htrace & _).
  split; [reflexivity|]. split; [exact Htoken|exact Htrace].
Defined.

(** X6. The inviter registration is not best effort: when setInviter
    throws after a successful login, getToken returns no session. *)
Theorem getToken_inviter_failure :
  ∀ (W : Type) (C : Collab W) private_key i st
    address message nonce_data w1 signature w2 loginResponse login_data w3 e w4,
    private_key ≠ ""%string →
    wallet_address C private_key = Return address →
    getNonce C address (world st) = (Return (Some message), w1) →
    data message = Some nonce_data →
    sign_with_private_key C private_key (nonce nonce_data) w1 = (Return signature, w2) →
    login C address signature (nonce nonce_data) w2 = (Return (Some loginResponse), w3) →
    data loginResponse = Some login_data →
    truthy (LoginData.token login_data) = true →
    setInviter C (LoginData.token login_data) w3 = (Throw e, w4) →
    getToken C private_key i st
    = (Return None,
       mkState w4
               (trace st ++ [EvHeader Authentication i; EvGetNonce; EvSign; EvLogin;
                             EvSetInviter])
               (accountsStats st)).
Proof.
  intros W C private_key i st address message nonce_data w1 signature w2
         loginResponse login_data w3 e w4
         Hkey Hwallet Hnonce Hmdata Hsign Hlogin Hldata Htoken Hinviter.
  apply String.eqb_neq in Hkey.
  unfold getToken, bind, try_catch, header, call, ret, throw. simpl.
  rewrite Hkey, Hwallet. simpl. rewrite Hnonce, Hmdata. simpl.
  rewrite Hsign. simpl. rewrite Hlogin, Hldata, Htoken. simpl.
  rewrite Hinviter. by rewrite <- !app_assoc.
Qed.

Lemma getToken_inviter_failure_witness :
  let C := faulty (mkFaults true false false false false false) open_tasks in
  getToken C "0xkey0123456" 0 (one_account 5000)
  = (Return None,
     mkState 5000
             (trace (one_account 5000)
              ++ [EvHeader Authentication 0; EvGetNonce; EvSign; EvLogin; EvSetInviter])
             (accountsStats (one_account 5000))).
Proof.
  intros C.
  apply (getToken_inviter_failure Z C "0xkey0123456" 0%nat (one_account 5000)
           "0xA"%string (mkResponse (Some (mkNonceData (JsStr "n"))))
           (mkNonceData (JsStr "n")) 5000 (JsStr "sig") 5000
           (mkResponse (Some (LoginData.mk (JsStr "tok") 2000)))
           (LoginData.mk (JsStr "tok") 2000) 5000 (Rejected "inviter") 5000);
    done.
Defined.

(** X7. When the AI generator throws, or its text is not valid JSON,
    createAgent returns [false], increments the account's [errors] by
    exactly one and leaves everything else of the registry alone; nothing is
    submitted to the platform or the chain. *)
Theorem createAgent_generation_failure :
  ∀ (W : Type) (C : Collab W) session_token i st s,
    accountsStats st !! i = Some s →
    (∀ e w',
        generateAIResponse C "create agent" "createAgent" (world st) = (Throw e, w') →
        createAgent C session_token i st
        = (Return false,
           mkState w' (trace st ++ [EvHeader CreatingAgent i; EvGenerateAI "createAgent"])
                   (<[i := incr_errors s]> (accountsStats st))))
    ∧ (∀ text w',
          generateAIResponse C "create agent" "createAgent" (world st)
          = (Return text, w') →
          JSON_parse C text = None →
          createAgent C session_token i st
          = (Return false,
             mkState w' (trace st ++ [EvHeader CreatingAgent i; EvGenerateAI "createAgent"])
                     (<[i := incr_errors s]> (accountsStats st)))).
Proof.
  intros W C session_token i st s Hs. split.
  - intros e w' Hgen.
    unfold createAgent, bind, try_catch, header, call, update_stats, ret. simpl.
    rewrite Hgen. simpl. rewrite Hs. by rewrite <- app_assoc.
  - intros text w' Hgen Hparse.
    unfold createAgent, bind, try_catch, header, call, update_stats, ret, throw. simpl.
    rewrite Hgen, Hparse. simpl. rewrite Hs. by rewrite <- app_assoc.
Qed.

Lemma createAgent_generation_failure_witness :
  let C := faulty (mkFaults false false false true false false) open_tasks in
  createAgent C (JsStr "tok") 0 (one_account 5000)
  = (Return false,
     mkState 5000 [EvHeader CreatingAgent 0; EvGenerateAI "createAgent"]
             (<[0%nat := incr_errors (initial_stats 0)]> (accountsStats (one_account 5000)))).
Proof.
  intros C.
  apply (proj2 (createAgent_generation_failure Z C (JsStr "tok") 0%nat (one_account 5000)
                  (initial_stats 0) eq_refl) "agent"%string 5000); reflexivity.
Defined.

(** X8. createRequest mirrors createAgent.  A generator that throws or a
    text that is not JSON costs one [errors] and nothing else; a request
    that parses but lacks a non-empty title or description ends the flow
    with [false] and the registry untouched.  In all three cases nothing is
    submitted. *)
Theorem createRequest_generation_paths :
  ∀ (W : Type) (C : Collab W) session_token i st s,
    accountsStats st !! i = Some s →
    (∀ e w',
        generateAIResponse C "create request" "createRequest" (world st)
        = (Throw e, w') →
        createRequest C session_token i st
        = (Return false,
           mkState w' (trace st ++ [EvHeader CreatingRequest i;
                                    EvGenerateAI "createRequest"])
                   (<[i := incr_errors s]> (accountsStats st))))
    ∧ (∀ text w',
          generateAIResponse C "create request" "createRequest" (world st)
          = (Return text, w') →
          JSON_parse C text = None →
          createRequest C session_token i st
          = (Return false,
             mkState w' (trace st ++ [EvHeader CreatingRequest i;
                                      EvGenerateAI "createRequest"])
                     (<[i := incr_errors s]> (accountsStats st))))
    ∧ (∀ text w' request,
          generateAIResponse C "create request" "createRequest" (world st)
          = (Return text, w') →
          JSON_parse C text = Some request →
          invalid_request request = true →
          createRequest C session_token i st
          = (Return false,
             mkState w' (trace st ++ [EvHeader CreatingRequest i;
                                      EvGenerateAI "createRequest"])
                     (accountsStats st))).
Proof.
  intros W C session_token i st s Hs. repeat apply conj.
  - intros e w' Hgen.
    unfold createRequest, bind, try_catch, header, call, update_stats, ret. simpl.
    rewrite Hgen. simpl. rewrite Hs. by rewrite <- app_assoc.
  - intros text w' Hgen Hparse.
    unfold createRequest, bind, try_catch, header, call, update_stats, ret, throw. simpl.
    rewrite Hgen, Hparse. simpl. rewrite Hs. by rewrite <- app_assoc.
  - intros text w' request Hgen Hparse Hinvalid.
    unfold createRequest, bind, try_catch, header, call, ret. simpl.
    rewrite Hgen, Hparse. unfold invalid_request, request_fields in Hinvalid.
    rewrite Hinvalid. by rewrite <- app_assoc.
Qed.

Lemma createRequest_generation_paths_witness :
  let C := faulty (mkFaults false false true false false false) open_tasks in
  createRequest C (JsStr "tok") 0 (one_account 5000)
  = (Return false,
     mkState 5000 [EvHeader CreatingRequest 0; EvGenerateAI "createRequest"]
             (<[0%nat := incr_errors (initial_stats 0)]> (accountsStats (one_account 5000)))).
Proof.
  intros C.
  apply (proj1 (createRequest_generation_paths Z C (JsStr "tok") 0%nat (one_account 5000)
                  (initial_stats 0) eq_refl) (Rejected "generator") 5000); reflexivity.
Defined.

(** X9. When the platform call of createAgent fails at all three attempts,
    the flow ends after exactly three submissions with the waits 5000 and
    10000 between them: [false] is returned, [errors] grows by one, no chain
    call is made and [agents] and [txs] stay. *)
Theorem createAgent_submission_exhausted :
  ∀ (W : Type) (C : Collab W) session_token i st s text w0 agent e1 w1 e2 w2 e3 w3,
    accountsStats st !! i = Some s →
    generateAIResponse C "create agent" "createAgent" (world st) = (Return text, w0) →
    JSON_parse C text = Some agent →
    invalid_agent agent = false →
    let submit := createNewAgent C session_token
                    (get_prop (agent_fields agent) "name_agent")
                    (get_prop (agent_fields agent) "description") in
    submit w0 = (Throw e1, w1) →
    submit (timer C 5000 w1) = (Throw e2, w2) →
    submit (timer C 10000 w2) = (Throw e3, w3) →
    createAgent C session_token i st
    = (Return false,
       mkState w3
               (trace st ++ [EvHeader CreatingAgent i; EvGenerateAI "createAgent";
                             EvCreateNewAgent; EvSleep 5000;
                             EvCreateNewAgent; EvSleep 10000;
                             EvCreateNewAgent])
               (<[i := incr_errors s]> (accountsStats st))).
Proof.
  intros W C session_token i st s text w0 agent e1 w1 e2 w2 e3 w3
         Hs Hgen Hparse Hvalid submit H1 H2 H3.
  unfold createAgent, bind, try_catch, header, update_stats, ret.
  unfold call at 1. simpl. rewrite Hgen, Hparse.
  unfold invalid_agent in Hvalid. cbv zeta in Hvalid. rewrite Hvalid.
  unfold retry, retryWithBackoff, MAX_RETRIES, RETRY_DELAY.
  rewrite !retry_loop_unfold. unfold call, sleep. simpl.
  change (5000 * 2 ^ Z.of_nat 0) with 5000.
  change (5000 * 2 ^ Z.of_nat 1) with 10000.
  fold (agent_fields agent). fold submit.
  rewrite H1. simpl. rewrite H2. simpl. rewrite H3. simpl.
  rewrite Hs. by rewrite <- !app_assoc.
Qed.

Lemma createAgent_submission_exhausted_witness :
  let C := faulty (mkFaults false false false false true false) open_tasks in
  createAgent C (JsStr "tok") 0 (one_account 5000)
  = (Return false,
     mkState 20000
             [EvHeader CreatingAgent 0; EvGenerateAI "createAgent";
              EvCreateNewAgent; EvSleep 5000; EvCreateNewAgent; EvSleep 10000;
              EvCreateNewAgent]
             (<[0%nat := incr_errors (initial_stats 0)]> (accountsStats (one_account 5000)))).
Proof.
  intros C.
  apply (createAgent_submission_exhausted Z C (JsStr "tok") 0%nat (one_account 5000)
           (initial_stats 0) "agent"%string 5000 good_agent
           (Rejected "platform") 5000 (Rejected "platform") 10000
           (Rejected "platform") 20000); reflexivity.
Defined.

Lemma create_outcome_true {W} i stage flow bump submit chain (st : State W) st' s :
  create_outcome i stage flow bump submit chain st (Return true) st' →
  accountsStats st !! i = Some s →
  accountsStats st' = <[i := incr_txs (bump s)]> (accountsStats st).
Proof.
  intros (evs & _ & _ & Hcase) Hs.
  destruct Hcase as [(? & _)|[(? & _ & ? & _)|[(s0 & Hs0 & _ & Hst & _)|(_ & ? & _)]]];
    try done.
  congruence.
Qed.

(** X10. With a validated status, both tasks open and both creation flows
    returning [true], executeDailyTasks returns [true] and the account's
    record shows one more agent, one more request, two more transactions and
    the same number of errors. *)
Theorem both_tasks_succeed :
  ∀ (W : Type) (C : Collab W) tokenData i st response status st1 s s2 s3,
    fetch_status C tokenData st = (Return (Some response), st1) →
    data response = Some status →
    lacks_flags (Some response) = false →
    truthy (is_create_agent status) = false →
    truthy (is_create_request status) = false →
    accountsStats st !! i = Some s →
    createAgent C (token tokenData) i st1 = (Return true, s2) →
    createRequest C (token tokenData) i s2 = (Return true, s3) →
    ∃ st' s',
      executeDailyTasks C tokenData i st = (Return true, st')
      ∧ trace st' = trace s3
      ∧ accountsStats st' !! i = Some s'
      ∧ agents s' = agents s + 1
      ∧ requests s' = requests s + 1
      ∧ txs s' = txs s + 2
      ∧ errors s' = errors s.
Proof.
  intros W C tokenData i st response status st1 s s2 s3
         Hfetch Hdata Hflags Ha Hr Hs Hca Hcr.
  unfold lacks_flags in Hflags. rewrite Hdata in Hflags.
  apply orb_false_iff in Hflags as [Hfa Hfr].
  rewrite (executeDailyTasks_validated C tokenData i st response status st1) by done.
  pose proof (fetch_status_spec C _ _ _ _ Hfetch) as [Hstats _].
  rewrite <- Hstats in Hs.
  pose proof (create_outcome_true _ _ _ _ _ _ _ _ _ (createAgent_spec C _ _ _ _ _ Hca) Hs)
    as Hs2.
  assert (accountsStats s2 !! i = Some (incr_txs (incr_agents s))) as Hi2
      by (rewrite Hs2; apply lookup_insert_eq).
  pose proof (create_outcome_true _ _ _ _ _ _ _ _ _ (createRequest_spec C _ _ _ _ _ Hcr) Hi2)
    as Hs3.
  unfold try_catch, perform_tasks, bind, now_seconds, date_now, update_stats, ret.
  rewrite Ha, Hr. simpl. rewrite Hca, Hcr. simpl.
  rewrite Hs3, !lookup_insert_eq. simpl. rewrite lookup_insert_eq.
  eexists _, _. split; [reflexivity|]. simpl. rewrite lookup_insert_eq.
  repeat split; simpl; lia.
Qed.

Lemma both_tasks_succeed_witness :
  let st1 := mkState 5000 [EvVerifyDailyTask] {[ 0%nat := initial_stats 0 ]} in
  let s2 := (createAgent open_tasks (token demo_token) 0 st1).2 in
  let s3 := (createRequest open_tasks (token demo_token) 0 s2).2 in
  ∃ st' s',
    executeDailyTasks open_tasks demo_token 0 (one_account 5000) = (Return true, st')
    ∧ trace st' = trace s3
    ∧ accountsStats st' !! 0%nat = Some s'
    ∧ agents s' = agents (initial_stats 0) + 1
    ∧ requests s' = requests (initial_stats 0) + 1
    ∧ txs s' = txs (initial_stats 0) + 2
    ∧ errors s' = errors (initial_stats 0).
Proof.
  intros st1 s2 s3.
  apply (both_tasks_succeed Z open_tasks demo_token 0%nat (one_account 5000)
           (mkResponse (Some (mkDailyTaskData (JsBool false) (JsBool false) 100)))
           (mkDailyTaskData (JsBool false) (JsBool false) 100)
           st1 (initial_stats 0) s2 s3); reflexivity.
Defined.

(** X11. When the status query fails at all three attempts,
    executeDailyTasks returns [false] after exactly three queries with the
    waits 5000 and 10000, increments [errors] by one and changes nothing
    else: no creation flow starts and [lastRun] and [cooldownSeconds] are
    not written. *)
Theorem status_query_exhausted :
  ∀ (W : Type) (C : Collab W) tokenData i st e st1 s,
    fetch_status C tokenData st = (Throw e, st1) →
    accountsStats st !! i = Some s →
    executeDailyTasks C tokenData i st
    = (Return false,
       mkState (world st1) (trace st1) (<[i := incr_errors s]> (accountsStats st)))
    ∧ trace st1
      = trace st ++ [EvVerifyDailyTask; EvSleep 5000; EvVerifyDailyTask;
                     EvSleep 10000; EvVerifyDailyTask].
Proof.
  intros W C tokenData i st e st1 s Hfetch Hs.
  pose proof (fetch_status_spec C _ _ _ _ Hfetch) as [Hstats _].
  split.
  - unfold executeDailyTasks, try_catch, bind, update_stats, ret.
    rewrite Hfetch, Hstats, Hs. reflexivity.
  - unfold fetch_status in Hfetch.
    apply retry_call_cases in Hfetch
      as [(a & w1 & _ & ? & _)|[(e1 & w1 & a & w2 & _ & _ & ? & _)
                               |(e1 & w1 & e2 & w2 & w3 & _ & _ & _ & ->)]];
      done.
Qed.

Lemma status_query_exhausted_witness :
  let C := faulty (mkFaults false true false false false false) open_tasks in
  executeDailyTasks C demo_token 0 (one_account 5000)
  = (Return false,
     mkState 20000
             [EvVerifyDailyTask; EvSleep 5000; EvVerifyDailyTask;
              EvSleep 10000; EvVerifyDailyTask]
             (<[0%nat := incr_errors (initial_stats 0)]> (accountsStats (one_account 5000)))).
Proof.
  intros C.
  apply (proj1 (status_query_exhausted Z C demo_token 0%nat (one_account 5000)
                  (Rejected "status")
                  (mkState 20000
                           [EvVerifyDailyTask; EvSleep 5000; EvVerifyDailyTask;
                            EvSleep 10000; EvVerifyDailyTask]
                           (accountsStats (one_account 5000)))
                  (initial_stats 0) eq_refl eq_refl)).
Defined.

(** ** processAccount *)

Lemma refresh_user_data_returns {W} (C : Collab W) tokenData i st r st' :
  refresh_user_data C tokenData i st = (r, st') → r = Return tt.
Proof.
  unfold refresh_user_data, try_catch, bind, call, update_stats, ret.
  intros H. repeat case_match; by simplify_eq.
Qed.

Lemma run_account_tasks_result {W} (C : Collab W) tokenData i st a st' :
  run_account_tasks C tokenData i st = (Return a, st') → a = Some tokenData.
Proof.
  unfold run_account_tasks, bind.
  destruct (executeDailyTasks C tokenData i st) as [[[]|e] s1]; simpl; [| |done].
  - destruct (refresh_user_data C tokenData i s1) as [[u|e] s2]; [|done].
    unfold ret. by intros [= <- _].
  - unfold ret. by intros [= <- _].
Qed.

Lemma guarded_tasks_result {W} (C : Collab W) tokenData i st :
  is_Some (accountsStats st !! i) →
  ∃ st', try_catch (run_account_tasks C tokenData i)
                   (on_critical_error i (Some tokenData)) st
         = (Return (Some tokenData), st').
Proof.
  intros Hi. unfold try_catch.
  destruct (run_account_tasks C tokenData i st) as [r s1] eqn:E.
  destruct (run_account_tasks_safe C tokenData i st r s1 E) as [_ Htotal].
  destruct (Htotal Hi) as [a ->].
  apply run_account_tasks_result in E as ->. by eexists.
Qed.

(** X12. A session is never thrown away because the tasks failed: for a
    configured account, processAccount returns the carried token whenever it
    is still valid, and the freshly acquired one whenever authentication was
    needed and succeeded, whatever the status query, the creation flows and
    the profile refresh do. *)
Theorem processAccount_keeps_session :
  ∀ (W : Type) (C : Collab W) private_key i st,
    is_Some (accountsStats st !! i) →
    (∀ current,
        needs_auth (Some current) (Date_now C (world st) / 1000) = false →
        ∃ st', processAccount C private_key i (Some current) st
               = (Return (Some current), st'))
    ∧ (∀ tokenData tokenData' st1,
          needs_auth tokenData (Date_now C (world st) / 1000) = true →
          getToken C private_key i st = (Return (Some tokenData'), st1) →
          ∃ st', processAccount C private_key i tokenData st
                 = (Return (Some tokenData'), st')).
Proof.
  intros W C private_key i st Hi. split.
  - intros current Hvalid. rewrite processAccount_valid by done.
    by apply guarded_tasks_result.
  - intros tokenData tokenData' st1 Hneed Hauth.
    rewrite (processAccount_auth_ok C _ _ _ _ _ _ Hneed Hauth).
    apply guarded_tasks_result.
    destruct (getToken_spec C _ _ _ _ _ Hauth) as (_ & -> & _). done.
Qed.

Lemma processAccount_keeps_session_witness :
  let C := faulty (mkFaults false true false false false true) open_tasks in
  is_Some (accountsStats (one_account 5000) !! 0%nat)
  ∧ needs_auth (Some demo_token) (5000 / 1000) = false
  ∧ ∃ st', processAccount C "0xkey0123456" 0 (Some demo_token) (one_account 5000)
           = (Return (Some demo_token), st').
Proof.
  intros C.
  assert (is_Some (accountsStats (one_account 5000) !! 0%nat)) as Hi by (by eexists).
  split; [exact Hi|]. split; [reflexivity|].
  apply (proj1 (processAccount_keeps_session Z C "0xkey0123456" 0%nat
                  (one_account 5000) Hi) demo_token).
  reflexivity.
Defined.

(** X13. An account whose status response fails validation is skipped
    for the cycle with its session kept: processAccount with a valid token
    returns that token in the state the status query left, so no profile
    refresh is made, no creation flow starts and the registry is
    unchanged. *)
Theorem processAccount_skips_on_invalid_status :
  ∀ (W : Type) (C : Collab W) private_key i current st response st1,
    needs_auth (Some current) (Date_now C (world st) / 1000) = false →
    fetch_status C current st = (Return response, st1) →
    lacks_flags response = true →
    processAccount C private_key i (Some current) st = (Return (Some current), st1)
    ∧ accountsStats st1 = accountsStats st
    ∧ ∃ evs, trace st1 = trace st ++ evs ∧ Forall status_query_event evs.
Proof.
  intros W C private_key i current st response st1 Hvalid Hfetch Hlack.
  split; [|by apply fetch_status_spec in Hfetch].
  rewrite processAccount_valid by done.
  unfold try_catch, run_account_tasks, bind.
  by rewrite (executeDailyTasks_rejected C current i st response st1 Hfetch Hlack).
Qed.

Lemma processAccount_skips_on_invalid_status_witness :
  let C := scripted None good_agent good_login in
  let st1 := mkState 5000 [EvVerifyDailyTask] {[ 0%nat := initial_stats 0 ]} in
  processAccount C "0xkey0123456" 0 (Some demo_token) (one_account 5000)
  = (Return (Some demo_token), st1)
  ∧ accountsStats st1 = accountsStats (one_account 5000)
  ∧ ∃ evs, trace st1 = trace (one_account 5000) ++ evs ∧ Forall status_query_event evs.
Proof.
  intros C st1.
  apply (processAccount_skips_on_invalid_status Z C "0xkey0123456" 0%nat demo_token
           (one_account 5000) None st1); reflexivity.
Defined.

(** X15. The profile refresh is best effort.  It never throws; when
    getUserData throws or brings no data the registry is unchanged; when it
    brings data, the account's [uid], [totalPoint] and [days] become the
    response's and every other field of the record stays. *)
Theorem refresh_user_data_best_effort :
  ∀ (W : Type) (C : Collab W) tokenData i st,
    (∀ r st', refresh_user_data C tokenData i st = (r, st') → r = Return tt)
    ∧ (∀ e w',
          getUserData C (token tokenData) (world st) = (Throw e, w') →
          refresh_user_data C tokenData i st
          = (Return tt, mkState w' (trace st ++ [EvGetUserData]) (accountsStats st)))
    ∧ (∀ userData w',
          getUserData C (token tokenData) (world st) = (Return userData, w') →
          userData = None ∨ (∃ u, userData = Some u ∧ data u = None) →
          refresh_user_data C tokenData i st
          = (Return tt, mkState w' (trace st ++ [EvGetUserData]) (accountsStats st)))
    ∧ (∀ userData user w' s,
          getUserData C (token tokenData) (world st) = (Return (Some userData), w') →
          data userData = Some user →
          accountsStats st !! i = Some s →
          refresh_user_data C tokenData i st
          = (Return tt,
             mkState w' (trace st ++ [EvGetUserData])
                     (<[i := mkStats (UserData.uid user) (UserData.total_point user)
                                     (UserData.days user) (agents s) (requests s) (txs s)
                                     (errors s) (lastRun s) (startTime s)
                                     (cooldownSeconds s)]>
                        (accountsStats st)))).
Proof.
  intros W C tokenData i st. repeat apply conj.
  - intros r st'. apply refresh_user_data_returns.
  - intros e w' Hcall.
    unfold refresh_user_data, try_catch, bind, call, ret. by rewrite Hcall.
  - intros userData w' Hcall Hmissing.
    unfold refresh_user_data, try_catch, bind, call, ret. rewrite Hcall.
    destruct Hmissing as [->|(u & -> & Hdata)]; [done|]. by rewrite Hdata.
  - intros userData user w' s Hcall Hdata Hs.
    unfold refresh_user_data, try_catch, bind, call, update_stats, ret.
    rewrite Hcall, Hdata. simpl. rewrite Hs. simpl.
    repeat (rewrite lookup_insert_eq; simpl). rewrite !insert_insert_eq.
    unfold set_days, set_totalPoint, set_uid. simpl. reflexivity.
Qed.

Lemma refresh_user_data_best_effort_witness :
  let C := faulty (mkFaults false false false false false true) open_tasks in
  refresh_user_data C demo_token 0 (one_account 5000)
  = (Return tt, mkState 5000 [EvGetUserData] (accountsStats (one_account 5000))).
Proof.
  intros C.
  apply (proj1 (proj2 (refresh_user_data_best_effort Z C demo_token 0%nat
                         (one_account 5000)))
               (Rejected "profile") 5000).
  reflexivity.
Defined.

(** ** One account at a time *)

#[local] Instance own_step_preorder : PreOrder own_step.
Proof.
  split.
  - intros s. unfold own_step. repeat split; lia.
  - intros s1 s2 s3 (E1 & ?) (E2 & ?). unfold own_step. rewrite E2, E1.
    repeat split; lia.
Qed.

#[local] Instance touches_only_preorder i : PreOrder (touches_only i).
Proof.
  split.
  - intros m j. destruct (m !! j); [|done]. by case_decide.
  - intros m1 m2 m3 H12 H23 j. specialize (H12 j). specialize (H23 j).
    destruct (m1 !! j), (m2 !! j), (m3 !! j); try done.
    case_decide; [by etransitivity|congruence].
Qed.

Lemma touches_only_insert i (m : gmap nat AccountStats) s s' :
  m !! i = Some s → own_step s s' → touches_only i m (<[i := s']> m).
Proof.
  intros Hi Hstep j. destruct (decide (j = i)) as [->|Hne].
  - by rewrite Hi, lookup_insert_eq.
  - rewrite lookup_insert_ne by done. by destruct (m !! j).
Qed.

Section Confinement.
Context {W : Type}.
Variable C : Collab W.
Variable i : nat.

#[local] Instance confined_step_preorder : PreOrder (@confined_step W i).
Proof.
  split.
  - intros st. split; [reflexivity|apply emits_refl].
  - intros st1 st2 st3 [T1 E1] [T2 E2]. split; [by etransitivity|].
    eapply emits_trans; eauto.
Qed.

Lemma confined_quiet (st st' : State W) :
  quiet (account_event i) st st' → confined_step i st st'.
Proof. intros [E H]. split; [|done]. rewrite E. reflexivity. Qed.

Lemma confined_ret {A} (a : A) : confined i (ret (W:=W) a).
Proof. intros st r st' [= <- <-]. reflexivity. Qed.

Lemma confined_throw {A} e : confined i (throw (W:=W) (A:=A) e).
Proof. intros st r st' [= <- <-]. reflexivity. Qed.

Lemma confined_bind {A B} (m : M W A) (k : A → M W B) :
  confined i m → (∀ a, confined i (k a)) → confined i (bind m k).
Proof.
  intros Hm Hk st r st'. unfold bind.
  destruct (m st) as [[a|e] st1] eqn:E; intros Hrun.
  - transitivity st1; [eapply Hm|eapply Hk]; eauto.
  - injection Hrun as _ <-. eapply Hm; eauto.
Qed.

Lemma confined_try_catch {A} (m : M W A) (h : JsError → M W A) :
  confined i m → (∀ e, confined i (h e)) → confined i (try_catch m h).
Proof.
  intros Hm Hh st r st'. unfold try_catch.
  destruct (m st) as [[a|e] st1] eqn:E; intros Hrun.
  - injection Hrun as _ <-. eapply Hm; eauto.
  - transitivity st1; [eapply Hm|eapply Hh]; eauto.
Qed.

Lemma confined_call {A} ev (f : W → Outcome JsError A * W) :
  account_event i ev → confined i (call ev f).
Proof.
  intros HP st r st' Hc. apply call_spec in Hc as [Hs Ht].
  apply confined_quiet. split; [done|]. exists [ev]. split; [done|]. by constructor.
Qed.

Lemma confined_retry_call {A} ev (f : W → Outcome JsError (option A) * W) :
  account_event i ev → confined i (retry C (call ev f)).
Proof.
  intros HP st r st' Hc. apply confined_quiet.
  apply retry_call_cases in Hc
    as [(a & w1 & _ & _ & ->)|[(e1 & w1 & a & w2 & _ & _ & _ & ->)
                             |(e1 & w1 & e2 & w2 & w3 & _ & _ & _ & ->)]];
    (split; [done|]); eexists; (split; [reflexivity|]);
    repeat (constructor; [first [exact HP|by left|by right]|]); constructor.
Qed.

Lemma confined_header stage : confined i (header (W:=W) stage i).
Proof.
  intros st r st' [= <- <-]. apply confined_quiet. split; [done|].
  eexists. split; [done|]. by constructor.
Qed.

Lemma confined_date_now : confined i (date_now C).
Proof. intros st r st' [= <- <-]. reflexivity. Qed.

Lemma confined_now_seconds : confined i (now_seconds C).
Proof. intros st r st' [= <- <-]. reflexivity. Qed.

Lemma confined_update_stats (f : AccountStats → AccountStats) :
  (∀ s, own_step s (f s)) → confined i (update_stats (W:=W) i f).
Proof.
  intros Hf st r st'. unfold update_stats.
  destruct (accountsStats st !! i) as [s|] eqn:E; intros [= <- <-].
  - split; [simpl; by eapply touches_only_insert|].
    exists []. simpl. by rewrite app_nil_r.
  - reflexivity.
Qed.

Lemma own_step_setters s :
  own_step s (incr_agents s) ∧ own_step s (incr_requests s)
  ∧ own_step s (incr_txs s) ∧ own_step s (incr_errors s)
  ∧ (∀ t, own_step s (set_lastRun t s))
  ∧ (∀ c, own_step s (set_cooldownSeconds c s))
  ∧ (∀ v, own_step s (set_uid v s))
  ∧ (∀ v, own_step s (set_totalPoint v s))
  ∧ (∀ v, own_step s (set_days v s)).
Proof. unfold own_step. simpl. repeat split; lia. Qed.

Ltac confine :=
  repeat first
    [ apply confined_ret
    | apply confined_throw
    | apply confined_date_now
    | apply confined_now_seconds
    | apply confined_header
    | apply confined_retry_call
    | apply confined_call
    | apply confined_update_stats
    | apply confined_bind
    | apply confined_try_catch
    | progress cbv zeta
    | case_match
    | match goal with
      | |- ∀ _, _ => intro
      | |- own_step ?s _ => apply (own_step_setters s)
      | |- account_event _ _ => simpl; by auto
      end ].

Lemma getToken_confined private_key : confined i (getToken C private_key i).
Proof. unfold getToken. confine. Qed.

Lemma createAgent_confined session_token : confined i (createAgent C session_token i).
Proof. unfold createAgent. confine. Qed.

Lemma createRequest_confined session_token :
  confined i (createRequest C session_token i).
Proof. unfold createRequest. confine. Qed.

Lemma executeDailyTasks_confined tokenData : confined i (executeDailyTasks C tokenData i).
Proof.
  unfold executeDailyTasks, fetch_status, perform_tasks.
  pose proof createAgent_confined. pose proof createRequest_confined.
  confine; auto.
Qed.

Lemma processAccount_confined private_key tokenData :
  confined i (processAccount C private_key i tokenData).
Proof.
  unfold processAccount, acquire_session, authenticate, checkTokenValid,
    run_account_tasks, refresh_user_data, on_critical_error.
  pose proof getToken_confined. pose proof executeDailyTasks_confined.
  confine; auto.
Qed.
End Confinement.

(** X14. Processing account [i] is confined to account [i]: whatever the
    collaborators do, the records of all other accounts are unchanged; the
    account's own record keeps its [startTime] and none of its counters
    decreases; every header carries index [i] and the only waits are the
    5000 and 10000 of the retry policy. *)
Theorem processAccount_confined_to_account :
  ∀ (W : Type) (C : Collab W) private_key i tokenData st r st',
    processAccount C private_key i tokenData st = (r, st') →
    (∀ j, j ≠ i → accountsStats st' !! j = accountsStats st !! j)
    ∧ (∀ s, accountsStats st !! i = Some s →
            ∃ s', accountsStats st' !! i = Some s'
                  ∧ startTime s' = startTime s
                  ∧ errors s <= errors s' ∧ agents s <= agents s'
                  ∧ requests s <= requests s' ∧ txs s <= txs s')
    ∧ ∃ evs, trace st' = trace st ++ evs ∧ Forall (account_event i) evs.
Proof.
  intros W C private_key i tokenData st r st' Hrun.
  apply processAccount_confined in Hrun as [Htouch Hemits].
  split; [|split; [|exact Hemits]].
  - intros j Hj. specialize (Htouch j).
    destruct (accountsStats st !! j), (accountsStats st' !! j); try done.
    rewrite decide_False in Htouch by done. by subst.
  - intros s Hs. specialize (Htouch i). rewrite Hs in Htouch.
    destruct (accountsStats st' !! i) as [s'|]; [|done].
    rewrite decide_True in Htouch by done. by exists s'.
Qed.

Lemma processAccount_confined_to_account_witness :
  let st := mkState 5000 [] {[ 0%nat := initial_stats 0; 1%nat := initial_stats 7 ]} in
  let run := processAccount open_tasks "0xkey0123456" 0 None st in
  (∀ j, j ≠ 0%nat → accountsStats run.2 !! j = accountsStats st !! j)
  ∧ ∃ evs, trace run.2 = trace st ++ evs ∧ Forall (account_event 0) evs.
Proof.
  intros st run.
  destruct (processAccount_confined_to_account Z open_tasks "0xkey0123456" 0%nat None
              st run.1 run.2 (surjective_pairing run)) as (Hothers & _ & Hevs).
  split; [exact Hothers|exact Hevs].
Defined.

(** ** The loop of main *)

#[local] Instance keeps_start_preorder : PreOrder keeps_start.
Proof.
  split.
  - intros m j. by destruct (m !! j).
  - intros m1 m2 m3 H12 H23 j. specialize (H12 j). specialize (H23 j).
    destruct (m1 !! j), (m2 !! j), (m3 !! j); try done. congruence.
Qed.

Lemma touches_only_keeps_start i m m' : touches_only i m m' → keeps_start m m'.
Proof.
  intros H j. specialize (H j). destruct (m !! j), (m' !! j); try done.
  case_decide; [by destruct H|by subst].
Qed.

Lemma count_pauses_app evs evs' :
  count_pauses (evs ++ evs') = (count_pauses evs + count_pauses evs')%nat.
Proof. unfold count_pauses. by rewrite List.filter_app, length_app. Qed.

Lemma account_events_no_pause i evs :
  Forall (account_event i) evs → count_pauses evs = 0%nat.
Proof.
  induction 1 as [|e evs He _ IH]; [done|].
  change (e :: evs) with ([e] ++ evs). rewrite count_pauses_app, IH.
  destruct e; try done. simpl in He. by destruct He as [->| ->].
Qed.

Lemma seq_below_count m : ∀ k i,
  length (List.filter (λ j, Nat.ltb j m) (seq i k)) = Nat.min k (m - i).
Proof.
  induction k as [|k IH]; intros i; [done|]. cbn [seq List.filter].
  destruct (Nat.ltb_spec i m); cbn [length]; rewrite IH; lia.
Qed.

Section Loop.
Context {W : Type}.
Variable C : Collab W.

(** What the loop over the keys from index [i] on does to main's state:
    the cycle counter and the size of the session array stay, every record
    keeps its [startTime], and the pauses are those after the accounts
    below [n - 1]. *)
Lemma accounts_loop_frame n keys :
  ∀ i ms r ms',
    accounts_loop C n keys i ms = (r, ms') →
    cycleCount ms' = cycleCount ms
    ∧ length (tokenDataArray ms') = length (tokenDataArray ms)
    ∧ keeps_start (accountsStats (prog ms)) (accountsStats (prog ms'))
    ∧ ∃ evs, trace (prog ms') = trace (prog ms) ++ evs
             ∧ (r = Return tt →
                count_pauses evs
                = length (List.filter (λ j, Nat.ltb j (n - 1)) (seq i (length keys)))).
Proof.
  induction keys as [|private_key rest IH]; intros i ms r ms'; simpl.
  - intros [= <- <-]. repeat split; try reflexivity.
    exists []. by rewrite app_nil_r.
  - destruct (processAccount C private_key i _ (prog ms)) as [[td|e] st1] eqn:E;
      apply processAccount_confined in E as [Htouch (evs & Ht & Hevs)].
    + intros Hrest. apply IH in Hrest as (Hc & Hl & Hk & evs' & Ht' & Hcount).
      simpl in Hc, Hl, Hk, Ht'. rewrite length_insert in Hl.
      split; [done|]. split; [done|]. split.
      * etransitivity; [by eapply touches_only_keeps_start|].
        by destruct (Nat.ltb i (n - 1)).
      * destruct (Nat.ltb i (n - 1)) eqn:Hlast; simpl in Ht'.
        -- exists (evs ++ [EvSleep 3000] ++ evs').
           rewrite Ht', Ht, <- !app_assoc. split; [done|]. intros Hr.
           rewrite !count_pauses_app, (account_events_no_pause i evs Hevs).
           rewrite (Hcount Hr). done.
        -- exists (evs ++ evs'). rewrite Ht', Ht, <- !app_assoc. split; [done|].
           intros Hr. rewrite count_pauses_app, (account_events_no_pause i evs Hevs).
           by rewrite (Hcount Hr).
    + intros [= <- <-]. simpl. split; [done|]. split; [done|]. split.
      * by eapply touches_only_keeps_start.
      * exists evs. by split.
Qed.

(** With a record for every key still to process, the loop runs to its
    end. *)
Lemma accounts_loop_completes n keys :
  ∀ i ms,
    (∀ j, (i ≤ j < i + length keys)%nat → is_Some (accountsStats (prog ms) !! j)) →
    ∃ ms', accounts_loop C n keys i ms = (Return tt, ms').
Proof.
  induction keys as [|private_key rest IH]; intros i ms Hdom; simpl.
  - by eexists.
  - destruct (processAccount C private_key i _ (prog ms)) as [r st1] eqn:E.
    destruct (processAccount_safe C _ _ _ _ _ _ E) as [Hadv Htotal].
    destruct Htotal as [td ->]; [apply Hdom; simpl; lia|].
    apply IH. intros j Hj. simpl.
    assert (is_Some (accountsStats st1 !! j)) as Hj1.
    { eapply advance_is_Some; [exact Hadv|]. apply Hdom. simpl. lia. }
    by destruct (Nat.ltb i (n - 1)).
Qed.

Lemma cycle_frame keys hours ms :
  cycleCount (cycle C keys hours ms) = S (cycleCount ms)
  ∧ length (tokenDataArray (cycle C keys hours ms)) = length (tokenDataArray ms)
  ∧ keeps_start (accountsStats (prog ms)) (accountsStats (prog (cycle C keys hours ms))).
Proof.
  unfold cycle.
  destruct (accounts_loop C (length keys) keys 0 _) as [[[]|e] ms2] eqn:E;
    apply accounts_loop_frame in E as (Hc & Hl & Hk & _); simpl in Hc, Hl, Hk.
  - unfold bind, summary, countdownTimer, do_sleep.
    destruct (accountsStats (prog ms2) !! 0%nat); simpl; by rewrite Hc, Hl.
  - simpl. by rewrite Hc, Hl.
Qed.

Lemma cycles_frame keys hours n :
  ∀ ms,
    cycleCount (cycles C keys hours n ms) = (cycleCount ms + n)%nat
    ∧ length (tokenDataArray (cycles C keys hours n ms)) = length (tokenDataArray ms)
    ∧ keeps_start (accountsStats (prog ms))
                  (accountsStats (prog (cycles C keys hours n ms))).
Proof.
  induction n as [|n IH]; intros ms; simpl.
  - split; [lia|]. split; [done|reflexivity].
  - destruct (IH (cycle C keys hours ms)) as (Hc & Hl & Hk).
    destruct (cycle_frame keys hours ms) as (Hc1 & Hl1 & Hk1).
    split; [lia|]. split; [congruence|by etransitivity].
Qed.
End Loop.

(** X16. The bookkeeping of main: after [n] iterations of its loop the
    cycle counter is [n] (an iteration counts even if it ended in the
    recovery pause), the session array still has one slot per key, and every
    account's [startTime] is still the clock read at initialisation. *)
Theorem main_bookkeeping :
  ∀ (W : Type) (C : Collab W) keys hours n w,
    keys ≠ [] →
    cycleCount (main C keys hours n w) = n
    ∧ length (tokenDataArray (main C keys hours n w)) = length keys
    ∧ ∀ i, (i < length keys)%nat →
           ∃ s, accountsStats (prog (main C keys hours n w)) !! i = Some s
                ∧ startTime s = Date_now C w.
Proof.
  intros W C keys hours n w Hkeys. unfold main.
  destruct keys as [|k keys]; [done|]. set (keys' := k :: keys).
  destruct (cycles_frame C keys' hours n (main_init C keys' w)) as (Hc & Hl & Hk).
  split; [by rewrite Hc|]. split.
  { rewrite Hl. unfold main_init. cbn [tokenDataArray]. apply length_replicate. }
  intros i Hi. specialize (Hk i). simpl in Hk.
  rewrite init_stats_lookup, decide_True in Hk by done.
  destruct (accountsStats (prog (cycles C keys' hours n (main_init C keys' w))) !! i)
    as [s|]; [|done].
  by exists s.
Qed.

Lemma main_bookkeeping_witness :
  ["0xkey0123456"; "0xkey6543210"]%string ≠ []
  ∧ cycleCount (main open_tasks ["0xkey0123456"; "0xkey6543210"]%string 12 3 77) = 3%nat
  ∧ length (tokenDataArray (main open_tasks ["0xkey0123456"; "0xkey6543210"]%string
                                 12 3 77)) = 2%nat.
Proof.
  assert (["0xkey0123456"; "0xkey6543210"]%string ≠ []) as Hkeys by done.
  split; [exact Hkeys|].
  destruct (main_bookkeeping Z open_tasks ["0xkey0123456"; "0xkey6543210"]%string
              12 3%nat 77 Hkeys) as (Hc & Hl & _).
  split; [exact Hc|exact Hl].
Defined.

(** X17. No cycle of main ends in the recovery pause.  Whatever the
    collaborators do, from the state main has reached after any number of
    iterations the loop over the accounts runs to its end, pausing 3000 ms
    exactly once between consecutive accounts and not after the last, and
    the iteration ends with the inter-cycle wait of [WAIT_HOURS] hours. *)
Theorem every_cycle_completes :
  ∀ (W : Type) (C : Collab W) keys hours n w,
    keys ≠ [] →
    let ms := main C keys hours n w in
    ∃ ms2 evs,
      accounts_loop C (length keys) keys 0
                    (mkMain (prog ms) (tokenDataArray ms) (S (cycleCount ms)))
      = (Return tt, ms2)
      ∧ trace (prog ms2) = trace (prog ms) ++ evs
      ∧ count_pauses evs = (length keys - 1)%nat
      ∧ cycle C keys hours ms
        = mkMain (sleep C (hours * 60 * 60 * 1000) (prog ms2))
                 (tokenDataArray ms2) (S (cycleCount ms)).
Proof.
  intros W C keys hours n w Hkeys ms.
  destruct (main_stats C keys hours n w (λ _, True)) as [Hdom _]; [done|done|].
  fold ms in Hdom.
  set (ms1 := mkMain (prog ms) (tokenDataArray ms) (S (cycleCount ms))).
  destruct (accounts_loop_completes C (length keys) keys 0 ms1) as [ms2 Hloop].
  { intros j Hj. apply Hdom. lia. }
  destruct (accounts_loop_frame C _ _ _ _ _ _ Hloop)
    as (Hc & _ & Hk & evs & Ht & Hcount).
  exists ms2, evs. split; [done|]. split; [done|]. split.
  - rewrite (Hcount eq_refl), seq_below_count. lia.
  - unfold cycle. fold ms1. rewrite Hloop.
    unfold bind, summary, countdownTimer, do_sleep.
    assert (is_Some (accountsStats (prog ms2) !! 0%nat)) as [s0 Hs0].
    { specialize (Hk 0%nat). simpl in Hk.
      destruct (Hdom 0%nat) as [s Hs]; [destruct keys; [done|simpl; lia]|].
      rewrite Hs in Hk. destruct (accountsStats (prog ms2) !! 0%nat); [by eexists|done]. }
    rewrite Hs0. by rewrite Hc.
Qed.

Lemma every_cycle_completes_witness :
  let keys := ["0xkey0123456"; "0xkey6543210"; "0xkey0000000"]%string in
  let C := faulty (mkFaults false true true false true true) open_tasks in
  let ms := main C keys 12 1 0 in
  keys ≠ []
  ∧ ∃ ms2 evs,
      accounts_loop C (length keys) keys 0
                    (mkMain (prog ms) (tokenDataArray ms) (S (cycleCount ms)))
      = (Return tt, ms2)
      ∧ trace (prog ms2) = trace (prog ms) ++ evs
      ∧ count_pauses evs = (length keys - 1)%nat
      ∧ cycle C keys 12 ms
        = mkMain (sleep C (12 * 60 * 60 * 1000) (prog ms2))
                 (tokenDataArray ms2) (S (cycleCount ms)).
Proof.
  intros keys C ms.
  assert (keys ≠ []) as Hkeys by done.
  split; [exact Hkeys|].
  exact (every_cycle_completes Z C keys 12 1%nat 0 Hkeys).
Defined.

Lemma summary_totals_inv (stats : gmap nat AccountStats) :
  stats_inv counters_exact stats →
  stats_inv counters_ok stats →
  ∀ l totals,
    totalTxs totals = totalAgents totals + totalRequests totals →
    0 <= totalErrors totals →
    totalTxs (foldl (add_account stats) totals l)
    = totalAgents (foldl (add_account stats) totals l)
      + totalRequests (foldl (add_account stats) totals l)
    ∧ 0 <= totalErrors (foldl (add_account stats) totals l).
Proof.
  intros Hexact Hok. induction l as [|i l IH]; intros totals Ht He; [done|].
  simpl. apply IH; unfold add_account; destruct (stats !! i) as [s|] eqn:E;
    simpl; try done.
  - pose proof (Hexact i s E) as Hs. unfold counters_exact in Hs. lia.
  - destruct (Hok i s E) as [Hs _]. lia.
Qed.

(** X18. The totals of the summary are consistent after any number of
    cycles: the total of blockchain transactions is the total of agents plus
    the total of requests, and the total of errors is not negative. *)
Theorem summary_totals_consistent :
  ∀ (W : Type) (C : Collab W) keys hours n w,
    let totals := summary_totals (length keys)
                                 (accountsStats (prog (main C keys hours n w))) in
    totalTxs totals = totalAgents totals + totalRequests totals
    ∧ 0 <= totalErrors totals.
Proof.
  intros W C keys hours n w totals. subst totals. unfold summary_totals.
  apply summary_totals_inv; try done.
  - apply (main_stats C keys hours n w counters_exact).
    + apply grows_counters_exact.
    + intros now. unfold counters_exact. simpl. lia.
  - apply (main_stats C keys hours n w counters_ok).
    + apply grows_counters_ok.
    + intros now. unfold counters_ok. simpl. lia.
Qed.

(** X19. What a tick of the countdown shows: nothing once less than a
    second is left; otherwise hours and minutes that are not negative, with
    the minutes below 60, and that fall short of the remaining seconds by
    less than a minute. *)
Theorem ticker_display :
  ∀ endTime now,
    (ticker endTime now = None ↔ endTime - now < 1000)
    ∧ ∀ remaining hours mins,
        ticker endTime now = Some (remaining, hours, mins) →
        remaining = (endTime - now) / 1000
        ∧ 0 < remaining ∧ 0 <= hours ∧ 0 <= mins < 60
        ∧ hours * 3600 + mins * 60 <= remaining < hours * 3600 + mins * 60 + 60.
Proof.
  intros endTime now. unfold ticker. cbv zeta.
  destruct (Z.leb_spec ((endTime - now) / 1000) 0) as [Hle|Hgt].
  - split.
    + split; [intros _|done].
      destruct (Z.lt_ge_cases (endTime - now) 1000) as [|Hge]; [done|].
      assert (1 <= (endTime - now) / 1000) by (apply Z.div_le_lower_bound; lia). lia.
    + intros remaining hours mins. done.
  - split.
    + split; [done|]. intros Hlt.
      assert ((endTime - now) / 1000 <= 0); [|lia].
      apply Z.lt_succ_r, Z.div_lt_upper_bound; lia.
    + intros remaining hours mins [= <- <- <-].
      set (r := (endTime - now) / 1000) in *.
      pose proof (Z.div_mod r 3600 ltac:(lia)) as Hr.
      pose proof (Z.mod_pos_bound r 3600 ltac:(lia)) as Hm.
      pose proof (Z.div_mod (r mod 3600) 60 ltac:(lia)) as Hr'.
      pose proof (Z.mod_pos_bound (r mod 3600) 60 ltac:(lia)) as Hm'.
      assert (0 <= r / 3600) by (apply Z.div_pos; lia).
      assert (0 <= r mod 3600 / 60) by (apply Z.div_pos; lia).
      assert (r mod 3600 / 60 < 60) by (apply Z.div_lt_upper_bound; lia).
      repeat split; lia.
Qed.

Lemma ticker_display_witness :
  ticker 100000000 1000 = Some (99999, 27, 46)
  ∧ 0 <= 46 < 60
  ∧ 27 * 3600 + 46 * 60 <= 99999 < 27 * 3600 + 46 * 60 + 60.
Proof.
  split; [reflexivity|].
  destruct (proj2 (ticker_display 100000000 1000) 99999 27 46 eq_refl)
    as (_ & _ & _ & Hm & Hr).
  split; [exact Hm|exact Hr].
Defined.

Lemma cycles_add {W} (C : Collab W) keys hours n k ms :
  cycles C keys hours (n + k) ms = cycles C keys hours k (cycles C keys hours n ms).
Proof. revert ms. induction n as [|n IH]; intros ms; simpl; [done|]. apply IH. Qed.

(** X20. The statistics never go backwards: between any two moments of
    main's loop, [n] iterations and [n + k] iterations in, every account
    keeps its record and none of [errors], [agents], [requests] and [txs]
    has decreased. *)
Theorem counters_never_decrease :
  ∀ (W : Type) (C : Collab W) keys hours n k w i s,
    accountsStats (prog (main C keys hours n w)) !! i = Some s →
    ∃ s', accountsStats (prog (main C keys hours (n + k) w)) !! i = Some s'
          ∧ errors s <= errors s' ∧ agents s <= agents s'
          ∧ requests s <= requests s' ∧ txs s <= txs s'.
Proof.
  intros W C keys hours n k w i s. unfold main.
  destruct keys as [|key keys]; [done|]. set (keys' := key :: keys).
  rewrite cycles_add. intros Hs.
  destruct (cycles_advance C keys' hours k (cycles C keys' hours n (main_init C keys' w)))
    as [Hgrow _].
  destruct (stats_grow_lookup _ _ _ _ Hgrow Hs) as (s' & Hs' & Hg).
  exists s'. split; [done|]. unfold grows in Hg. lia.
Qed.

Lemma counters_never_decrease_witness :
  let keys := ["0xkey0123456"]%string in
  accountsStats (prog (main open_tasks keys 12 1 0)) !! 0%nat
  = Some (mkStats (JsStr "u") (JsNum 10) (JsNum 1) 1 1 2 0 (Some 0) 0 86500)
  ∧ ∃ s', accountsStats (prog (main open_tasks keys 12 (1 + 2) 0)) !! 0%nat = Some s'
          ∧ 0 <= errors s' ∧ 1 <= agents s' ∧ 1 <= requests s' ∧ 2 <= txs s'.
Proof.
  intros keys.
  assert (accountsStats (prog (main open_tasks keys 12 1 0)) !! 0%nat
          = Some (mkStats (JsStr "u") (JsNum 10) (JsNum 1) 1 1 2 0 (Some 0) 0 86500))
    as Hs by (vm_compute; reflexivity).
  split; [exact Hs|].
  exact (counters_never_decrease Z open_tasks keys 12 1%nat 2%nat 0 0%nat _ Hs).
Defined.
